(** * Opportunity scanner of the Solana tools plugin (src/src/tools.ts)

    A shallow embedding of [scanOpportunities], [calculateOpportunityScore],
    [calculateGeckoScore] and the [solana_scan] handler, and the properties
    of the scan pipeline proved about it.

    Numbers.  A number of the scan is a JavaScript number, an IEEE 754
    binary64 value: Rocq's primitive [float], with the same rounding to
    nearest, the two infinities, the two zeros and NaN.  A numeric property
    read from a payload has type [option float], [None] for [undefined]; a
    property that the code passes through [parseFloat] holds the result of
    that call.  The price changes of a trending pool, which the code uses as
    they arrive, are values ([Js.value]): a number or a text.  [maxResults]
    is an integer [Z], negative ones included.

    Engine.  What the language settles and the program does not is a
    parameter, [Js.Engine]: the conversions between text and number, and the
    order [sort] leaves under a comparator that is not consistent.

    Payloads.  A response is read at the types the scanner expects of it;
    [null] entries and missing objects, on which the code raises a
    [TypeError], are part of the model.

    Effects.  A block of the scanner is a function from the store (the
    [opportunities] array and the log of requested URLs) to a completion,
    normal or abrupt, and the store it leaves. *)

From Stdlib Require Import List String Ascii ZArith QArith Bool Lia Sorted
  Permutation Floats.
Import ListNotations.

Local Open Scope Q_scope.

Local Open Scope float_scope.

Set Warnings "-inexact-float".

(** ** JavaScript values *)

Module Js.

(** [a < b] on numbers: false when either is NaN. *)
Definition lt (a b : float) : bool := a <? b.

(** [a > b] on numbers. *)
Definition gt (a b : float) : bool := lt b a.

(** [x < c] where [x] may be [undefined], which converts to NaN. *)
Definition lt_opt (x : option float) (c : float) : bool :=
  match x with Some q => lt q c | None => false end.

(** [x > c] where [x] may be [undefined]. *)
Definition gt_opt (x : option float) (c : float) : bool :=
  match x with Some q => gt q c | None => false end.

(** The numbers that are falsy: [0], [-0] and NaN. *)
Definition falsy (q : float) : bool := (q =? 0) || is_nan q.

(** [x || d] for a numeric [x]: a falsy number and [undefined] yield [d]. *)
Definition or_num (x : option float) (d : float) : float :=
  match x with
  | Some q => if falsy q then d else q
  | None => d
  end.

(** [x || d] for a string [x]: the empty string and [undefined] are falsy. *)
Definition or_str (x : option string) (d : string) : string :=
  match x with
  | Some EmptyString => d
  | Some s => s
  | None => d
  end.

(** [Math.max(a, b)]: NaN when either argument is NaN; [+0] counts as
    larger than [-0]. *)
Definition Math_max (a b : float) : float :=
  if is_nan a || is_nan b then nan
  else if a <? b then b
  else if b <? a then a
  else if a =? 0 then a + b
  else a.

(** A property used as it arrives: [undefined], a number or a text. *)
Inductive value :=
| Undefined
| Num (n : float)
| Text (s : string).

(** The engine: [ToNumber] of a text (StringToNumber), [ToString] of a
    number (Number::toString), and [sort_order], the arrangement [sort]
    leaves where the standard does not fix it, computed from the results of
    the comparator on the elements (row [i], column [j]: element [i] against
    element [j]) and given as moves, each of which takes the element at an
    index to the front. *)
Record Engine := {
  ToNumber : string -> float;
  ToString : float -> string;
  sort_order : list (list float) -> list nat
}.

(** The number a value converts to. *)
Definition to_number (js : Engine) (v : value) : float :=
  match v with
  | Undefined => nan
  | Num n => n
  | Text s => ToNumber js s
  end.

(** The text a value converts to. *)
Definition to_string (js : Engine) (v : value) : string :=
  match v with
  | Undefined => "undefined"%string
  | Num n => ToString js n
  | Text s => s
  end.

(** [a + b]: when either operand is a text, the concatenation of the two
    as texts; the sum of the two as numbers otherwise. *)
Definition add (js : Engine) (a b : value) : value :=
  match a, b with
  | Text _, _ | _, Text _ => Text (to_string js a ++ to_string js b)%string
  | _, _ => Num (to_number js a + to_number js b)
  end.

(** [a - b]: always the difference of the two as numbers. *)
Definition sub (js : Engine) (a b : value) : value :=
  Num (to_number js a - to_number js b).

(** [v || 0]: [undefined], a falsy number and the empty text yield [0]. *)
Definition or_zero (v : value) : value :=
  match v with
  | Undefined => Num 0
  | Num n => if falsy n then Num 0 else Num n
  | Text EmptyString => Num 0
  | Text s => Text s
  end.

End Js.

(** ** Provider payloads, as far as the scorers read them *)

(** [pair.priceChange] of DexScreener, which sends its figures as JSON
    numbers: the percent change per window; a missing object is the record
    of four [None]. *)
Record PriceChange := {
  m5 : option float;
  h1 : option float;
  h6 : option float;
  h24 : option float
}.

(** One entry of [tokenData.pairs]. [pair_priceUsd] is the text field
    [pair.priceUsd] after [parseFloat(pair.priceUsd || '0')]. *)
Record Pair := {
  baseToken_symbol : option string;
  pair_priceUsd : float;
  pair_priceChange : PriceChange;
  volume_h24 : option float;
  liquidity_usd : option float;
  pair_fdv : option float;
  txns_h24_buys : option float;
  txns_h24_sells : option float
}.

(** An object [{ m5, h1, h6, h24 }] whose properties are used as they
    arrive: [attr.price_change_percentage] of GeckoTerminal, which sends its
    figures as text, and the [priceChange] of a candidate.  A missing object
    is the record of four [Js.Undefined]. *)
Record Changes := {
  change_m5 : Js.value;
  change_h1 : Js.value;
  change_h6 : Js.value;
  change_h24 : Js.value
}.

(** [pool.attributes] of a trending pool.  The three text fields that the
    code parses hold the result of [parseFloat(field || '0')]. *)
Record PoolAttributes := {
  name : option string;
  base_token_price_usd : float;
  price_change_percentage : Changes;
  volume_usd_h24 : float;
  reserve_in_usd : float
}.

(** ** The scorers *)

(** [score += d] when [cond] holds. *)
Definition add_if (cond : bool) (d : float) (score : float) : float :=
  if cond then score + d else score.

(** [score -= d] when [cond] holds. *)
Definition sub_if (cond : bool) (d : float) (score : float) : float :=
  if cond then score - d else score.

(** [score += f x] when [x > lo && x < hi]; the guard fails on a missing
    [x]. *)
Definition add_if_within (x : option float) (lo hi : float)
  (f : float -> float) (score : float) : float :=
  match x with
  | Some q => if Js.gt q lo && Js.lt q hi then score + f q else score
  | None => score
  end.

(** Early stage bonus: the [if / else if / else if] chain on [fdv]. *)
Definition earlyStageBonus (fdv : float) (score : float) : float :=
  if Js.gt fdv 0 && Js.lt fdv 500000 then score + 30
  else if Js.lt fdv 2000000 then score + 20
  else if Js.lt fdv 10000000 then score + 10
  else score.

(** [volume24h / (liquidity || 1)]. *)
Definition volLiqRatio (volume24h : float) (liquidity : option float) : float :=
  volume24h / Js.or_num liquidity 1.

(** [buys24h / (sells24h || 1)]. *)
Definition buyRatio (buys24h sells24h : float) : float :=
  buys24h / Js.or_num (Some sells24h) 1.

(** The running total of [calculateOpportunityScore] before the final
    [Math.max(0, score)]. *)
Definition opportunityRawScore (pair : Pair) : float :=
  let score := 0 in
  let priceChange := pair_priceChange pair in
  let liquidity := Js.or_num (liquidity_usd pair) 0 in
  let volume24h := Js.or_num (volume_h24 pair) 0 in
  let fdv := Js.or_num (pair_fdv pair) 0 in
  let buys24h := Js.or_num (txns_h24_buys pair) 0 in
  let sells24h := Js.or_num (txns_h24_sells pair) 0 in
  (* Early stage bonus *)
  let score := earlyStageBonus fdv score in
  (* Momentum *)
  let score := add_if_within (m5 priceChange) 0 15 (fun m5 => m5 * 3) score in
  let score := add_if_within (h1 priceChange) 0 30 (fun h1 => h1 * 2) score in
  let score :=
    add_if (Js.gt_opt (h1 priceChange) 5 && Js.gt_opt (m5 priceChange) 0)
           15 score in
  (* Volume/Liquidity ratio *)
  let r := volLiqRatio volume24h (Some liquidity) in
  let score := add_if (Js.gt r 2) 20 score in
  let score := add_if (Js.gt r 5) 15 score in
  (* Buy pressure *)
  let b := buyRatio buys24h sells24h in
  let score := add_if (Js.gt b 1.3) 15 score in
  let score := add_if (Js.gt b 2) 10 score in
  (* Penalties *)
  let score := sub_if (Js.gt_opt (m5 priceChange) 30) 25 score in
  let score := sub_if (Js.lt_opt (h1 priceChange) (-15)) 20 score in
  let score := sub_if (Js.lt_opt (h24 priceChange) (-40)) 20 score in
  let score := sub_if (Js.lt liquidity 15000) 10 score in
  let score := sub_if (Js.lt b 0.5) 15 score in
  score.

Definition calculateOpportunityScore (pair : Pair) : float :=
  Js.Math_max 0 (opportunityRawScore pair).

(** The running total of [calculateGeckoScore] before the final
    [Math.max(0, score)].  The price changes are used as they arrive: the
    comparisons, [priceChange.h1 * 2] and [score -= d] convert a text to a
    number, whereas [score += priceChange.h6] and the [score += d] after it
    append to a total that is a text or meets one. *)
Definition geckoRawScore (js : Js.Engine) (attr : PoolAttributes) : Js.value :=
  let score := Js.Num 0 in
  let priceChange := price_change_percentage attr in
  let liquidity := reserve_in_usd attr in
  let volume24h := volume_usd_h24 attr in
  let h1_number := Js.to_number js (change_h1 priceChange) in
  let h6_number := Js.to_number js (change_h6 priceChange) in
  (* Momentum *)
  let score :=
    if Js.gt h1_number 0 && Js.lt h1_number 30
    then Js.add js score (Js.Num (h1_number * 2)) else score in
  let score :=
    if Js.gt h6_number 0 && Js.lt h6_number 50
    then Js.add js score (change_h6 priceChange) else score in
  (* Volume/Liquidity *)
  let r := volLiqRatio volume24h (Some liquidity) in
  let score := if Js.gt r 2 then Js.add js score (Js.Num 20) else score in
  (* Base score for trending *)
  let score := Js.add js score (Js.Num 10) in
  (* Penalties *)
  let score :=
    if Js.lt h1_number (-15) then Js.sub js score (Js.Num 20) else score in
  let score :=
    if Js.lt liquidity 15000 then Js.sub js score (Js.Num 10) else score in
  score.

Definition calculateGeckoScore (js : Js.Engine) (attr : PoolAttributes) : float :=
  Js.Math_max 0 (Js.to_number js (geckoRawScore js attr)).

(** ** Strings and arrays *)

Local Open Scope string_scope.

(** [s.replace(pattern, replacement)] for a string pattern: the first
    occurrence of [pattern] in [s], wherever it starts, is replaced. *)
Fixpoint String_replace (pattern replacement s : string) : string :=
  if String.prefix pattern s
  then replacement ++
       String.substring (String.length pattern)
                        (String.length s - String.length pattern) s
  else match s with
       | EmptyString => EmptyString
       | String c rest => String c (String_replace pattern replacement rest)
       end.

(** [s.split(sep)[0]] for a one-character separator: the text before the
    first [sep]. *)
Fixpoint String_split_first (sep : ascii) (s : string) : string :=
  match s with
  | EmptyString => EmptyString
  | String c rest =>
      if Ascii.eqb c sep then EmptyString
      else String c (String_split_first sep rest)
  end.

(** [arr.slice(0, end)] for an integer [end]: a negative [end] counts from
    the end of the array. *)
Definition Array_slice0 {A} (arr : list A) (end_ : Z) : list A :=
  let len := Z.of_nat (List.length arr) in
  let final := if (end_ <? 0)%Z then Z.max (len + end_) 0 else Z.min end_ len in
  firstn (Z.to_nat final) arr.

(** [arr.findIndex(p)]: the index of the first element that satisfies [p],
    [-1] when there is none. *)
Fixpoint Array_findIndex {A} (p : A -> bool) (arr : list A) : Z :=
  match arr with
  | [] => (-1)%Z
  | x :: rest =>
      if p x then 0%Z
      else let i := Array_findIndex p rest in
           if (i <? 0)%Z then (-1)%Z else (i + 1)%Z
  end.

(** The elements kept by [arr.filter((x, index) => f x index)], where the
    first element of [arr] has the index [index]. *)
Fixpoint filter_from {A} (f : A -> Z -> bool) (index : Z) (arr : list A)
  : list A :=
  match arr with
  | [] => []
  | x :: rest =>
      if f x index then x :: filter_from f (index + 1)%Z rest
      else filter_from f (index + 1)%Z rest
  end.

(** [arr.filter((x, index, self) => f x index self)]. *)
Definition Array_filter {A} (f : A -> Z -> list A -> bool) (arr : list A)
  : list A :=
  filter_from (fun x index => f x index arr) 0%Z arr.

(** The stable arrangement under a consistent comparator: [x] goes behind
    every element that the comparator puts before it. *)
Fixpoint sort_insert {A} (compareFn : A -> A -> float) (x : A) (sorted : list A)
  : list A :=
  match sorted with
  | [] => [x]
  | y :: rest =>
      if Js.gt (compareFn x y) 0 then y :: sort_insert compareFn x rest
      else x :: y :: rest
  end.

(** No result of the comparator on two elements of [arr] is NaN.  For a
    comparator that is a difference of two numbers, as the one of the scan
    is, this is when it is a consistent comparator in the sense of the
    standard: a difference that is a number has the sign of the order of
    its operands, whereas a NaN result, which [sort] takes for [0], makes
    an element equal to two elements that differ. *)
Definition consistent {A} (compareFn : A -> A -> float) (arr : list A) : bool :=
  forallb (fun a => forallb (fun b => negb (is_nan (compareFn a b))) arr) arr.

(** The element at index [i] taken to the front. *)
Definition move_to_front {A} (i : nat) (arr : list A) : list A :=
  match nth_error arr i with
  | Some x => x :: firstn i arr ++ skipn (S i) arr
  | None => arr
  end.

(** The moves applied one after the other.  Every arrangement of [arr] is
    the result of some moves. *)
Definition rearrange {A} (moves : list nat) (arr : list A) : list A :=
  fold_left (fun arr i => move_to_front i arr) moves arr.

(** [arr.sort(compareFn)].  Under a consistent comparator the sort, stable
    since ECMAScript 2019, has one result, which insertion from the right
    computes.  Under any other the standard leaves the order to the
    implementation: it is the one the engine gives. *)
Definition Array_sort {A} (js : Js.Engine) (compareFn : A -> A -> float)
  (arr : list A) : list A :=
  if consistent compareFn arr
  then fold_right (sort_insert compareFn) [] arr
  else rearrange
         (Js.sort_order js (map (fun a => map (compareFn a) arr) arr)) arr.

(** ** Candidates *)

Record Candidate := {
  mint : string;
  symbol : string;
  priceUsd : float;
  priceChange : Changes;
  volume24h : float;
  liquidity : float;
  fdv : float;
  source : string;
  score : float
}.

(** [{ m5: pc?.m5 || 0, h1: pc?.h1 || 0, h6: pc?.h6 || 0, h24: pc?.h24 || 0 }]
    for the price changes of a pair. *)
Definition priceChange_or_zero (pc : PriceChange) : Changes :=
  {| change_m5 := Js.Num (Js.or_num (m5 pc) 0);
     change_h1 := Js.Num (Js.or_num (h1 pc) 0);
     change_h6 := Js.Num (Js.or_num (h6 pc) 0);
     change_h24 := Js.Num (Js.or_num (h24 pc) 0) |}.

(** The same object for the price changes of a pool. *)
Definition changes_or_zero (pc : Changes) : Changes :=
  {| change_m5 := Js.or_zero (change_m5 pc);
     change_h1 := Js.or_zero (change_h1 pc);
     change_h6 := Js.or_zero (change_h6 pc);
     change_h24 := Js.or_zero (change_h24 pc) |}.

(** ** Responses of the two providers *)

(** One entry of the boosted-tokens array. *)
Record BoostedToken := {
  chainId : option string;
  tokenAddress : string
}.

(** The body of [latest/dex/tokens/<address>]; an entry of [pairs] that is
    [null] is [None]. *)
Record TokenData := {
  pairs : option (list (option Pair))
}.

(** One entry of the trending-pools array: [base_token_id] is
    [pool.relationships?.base_token?.data?.id]. *)
Record Pool := {
  base_token_id : option string;
  attributes : option PoolAttributes
}.

(** The body of [trending_pools]; an entry of [data] that is [null] is
    [None]. *)
Record TrendingData := {
  data : option (list (option Pool))
}.

(** ** Effects: exceptions, the [opportunities] array, the requests sent *)

(** A thrown value: an [Error] with its message, or anything else. *)
Inductive exn :=
| JsError (message : string)
| JsThrown.

Inductive completion (A : Type) :=
| Normal (value : A)
| Abrupt (thrown : exn).
Arguments Normal {A} value.
Arguments Abrupt {A} thrown.

Definition TypeError : exn := JsError "TypeError".

(** What a scan reads and writes: its local array [opportunities], and the
    URLs requested so far, oldest first. *)
Record Store := {
  opportunities : list Candidate;
  requests : list string
}.

(** What a scan runs against: the engine, and the network, that is what
    [await fetch(url)] followed by [.json()] yields for the request number
    [tick] of the run.  [Abrupt] is a request that fails, a body that is
    not JSON, or a body on which the first property read raises a
    [TypeError] ([null] where an object is read, an object where an array
    is): the same handler catches all of them at the same point.  A [null]
    boosted array is [None]. *)
Record Network := {
  engine : Js.Engine;
  boosts_latest : nat -> string -> completion (option (list (option BoostedToken)));
  token_pairs : nat -> string -> completion TokenData;
  trending_pools : nat -> string -> completion TrendingData
}.

Definition Eff (A : Type) : Type := Store -> completion A * Store.

Definition ret {A} (a : A) : Eff A := fun st => (Normal a, st).

Definition throw {A} (e : exn) : Eff A := fun st => (Abrupt e, st).

Definition bind {A B} (m : Eff A) (k : A -> Eff B) : Eff B :=
  fun st =>
    match m st with
    | (Normal a, st') => k a st'
    | (Abrupt e, st') => (Abrupt e, st')
    end.

(** [try { body } catch (e) { handler e }]: what [body] wrote before it
    threw stays written. *)
Definition try_catch {A} (body : Eff A) (handler : exn -> Eff A) : Eff A :=
  fun st =>
    match body st with
    | (Normal a, st') => (Normal a, st')
    | (Abrupt e, st') => handler e st'
    end.

Notation "x <- m ;; k" := (bind m (fun x => k))
  (at level 61, m at next level, right associativity).
Notation "m ;; k" := (bind m (fun _ => k))
  (at level 61, right associativity).

(** Reading a property of [x] raises a [TypeError] when [x] is [null] or
    [undefined]. *)
Definition deref {A} (x : option A) : Eff A :=
  match x with
  | Some a => ret a
  | None => throw TypeError
  end.

(** [for (const x of arr) body x]: a throwing iteration ends the loop. *)
Fixpoint for_of {A} (arr : list A) (body : A -> Eff unit) : Eff unit :=
  match arr with
  | [] => ret tt
  | x :: rest => body x ;; for_of rest body
  end.

(** [opportunities.push(c)]. *)
Definition push (c : Candidate) : Eff unit :=
  fun st =>
    (Normal tt,
     {| opportunities := opportunities st ++ [c]; requests := requests st |}).

(** [(await fetch(url)).json()] against one endpoint of the network. *)
Definition fetch_json {A} (endpoint : nat -> string -> completion A)
  (url : string) : Eff A :=
  fun st =>
    (endpoint (List.length (requests st)) url,
     {| opportunities := opportunities st; requests := requests st ++ [url] |}).

(** [console.warn(...)]: nothing the scan can observe. *)
Definition console_warn : Eff unit := ret tt.

(** ** scanOpportunities *)

Definition boosted_url : string :=
  "https://api.dexscreener.com/token-boosts/latest/v1".

Definition token_url (tokenAddress : string) : string :=
  "https://api.dexscreener.com/latest/dex/tokens/" ++ tokenAddress.

Definition trending_url : string :=
  "https://api.geckoterminal.com/api/v2/networks/solana/trending_pools?include=base_token".

(** The object pushed for a boosted token and the first pair of its detail. *)
Definition boostedCandidate (token : BoostedToken) (pair : Pair) : Candidate :=
  {| mint := tokenAddress token;
     symbol := Js.or_str (baseToken_symbol pair) "Unknown";
     priceUsd := pair_priceUsd pair;
     priceChange := priceChange_or_zero (pair_priceChange pair);
     volume24h := Js.or_num (volume_h24 pair) 0;
     liquidity := Js.or_num (liquidity_usd pair) 0;
     fdv := Js.or_num (pair_fdv pair) 0;
     source := "dexscreener-boosted";
     score := calculateOpportunityScore pair |}.

(** [pool.relationships?.base_token?.data?.id || ''] with the first
    ['solana_'] removed. *)
Definition tokenAddr (pool : Pool) : string :=
  let baseTokenId := Js.or_str (base_token_id pool) EmptyString in
  String_replace "solana_" EmptyString baseTokenId.

(** The object pushed for a trending pool. *)
Definition trendingCandidate (js : Js.Engine) (pool : Pool)
  (attr : PoolAttributes) : Candidate :=
  {| mint := tokenAddr pool;
     symbol :=
       Js.or_str (option_map (String_split_first "/") (name attr)) "Unknown";
     priceUsd := base_token_price_usd attr;
     priceChange := changes_or_zero (price_change_percentage attr);
     volume24h := volume_usd_h24 attr;
     liquidity := reserve_in_usd attr;
     fdv := 0;
     source := "geckoterminal-trending";
     score := calculateGeckoScore js attr |}.

(** [t.chainId === 'solana'] *)
Definition is_solana (t : BoostedToken) : bool :=
  match chainId t with
  | Some c => String.eqb c "solana"
  | None => false
  end.

(** [(boostedData || []).filter(t => t.chainId === 'solana')]: reading
    [chainId] of a [null] entry throws. *)
Fixpoint filter_solana (boostedData : list (option BoostedToken))
  : Eff (list BoostedToken) :=
  match boostedData with
  | [] => ret []
  | t :: rest =>
      t <- deref t ;;
      kept <- filter_solana rest ;;
      ret (if is_solana t then t :: kept else kept)
  end.

(** [x || []] *)
Definition or_empty {A} (x : option (list A)) : list A :=
  match x with Some l => l | None => [] end.

(** The body of the loop over [solTokens], with its own [try]/[catch]. *)
Definition scanBoostedToken (net : Network) (token : BoostedToken) : Eff unit :=
  try_catch
    (tokenData <- fetch_json (token_pairs net) (token_url (tokenAddress token)) ;;
     match pairs tokenData with
     | Some (first :: _) =>
         pair <- deref first ;;
         push (boostedCandidate token pair)
     | _ => ret tt
     end)
    (fun e => console_warn).

(** The body of the loop over the trending pools. *)
Definition scanTrendingPool (js : Js.Engine) (pool : option Pool) : Eff unit :=
  pool <- deref pool ;;
  let tokenAddr := tokenAddr pool in
  if negb (String.eqb tokenAddr EmptyString) && (10 <? String.length tokenAddr)%nat
  then
    attr <- deref (attributes pool) ;;
    push (trendingCandidate js pool attr)
  else ret tt.

(** The trending-pools block, with its own [try]/[catch]. *)
Definition scanTrending (net : Network) (maxResults : Z) : Eff unit :=
  try_catch
    (trendingData <- fetch_json (trending_pools net) trending_url ;;
     for_of (Array_slice0 (or_empty (data trendingData)) maxResults)
            (scanTrendingPool (engine net)))
    (fun e => console_warn).

(** The outer [try]/[catch] of [scanOpportunities]: the boosted tokens, then
    the trending pools. *)
Definition collectOpportunities (net : Network) (maxResults : Z) : Eff unit :=
  try_catch
    (boostedData <- fetch_json (boosts_latest net) boosted_url ;;
     kept <- filter_solana (or_empty boostedData) ;;
     let solTokens := Array_slice0 kept maxResults in
     for_of solTokens (scanBoostedToken net) ;;
     scanTrending net maxResults)
    (fun e => console_warn).

(** [o.mint === opp.mint] *)
Definition same_mint (opp o : Candidate) : bool := String.eqb (mint o) (mint opp).

(** [opportunities.filter((opp, index, self) =>
       index === self.findIndex(o => o.mint === opp.mint))] *)
Definition uniqueOpportunities (opportunities : list Candidate) : list Candidate :=
  Array_filter
    (fun opp index self => (index =? Array_findIndex (same_mint opp) self)%Z)
    opportunities.

(** [(a, b) => b.score - a.score] *)
Definition by_score_desc (a b : Candidate) : float := score b - score a.

(** Remove duplicates, sort by score, keep [maxResults]. *)
Definition rankOpportunities (js : Js.Engine) (opportunities : list Candidate)
  (maxResults : Z) : list Candidate :=
  Array_slice0 (Array_sort js by_score_desc (uniqueOpportunities opportunities))
               maxResults.

(** [const opportunities = []] *)
Definition new_opportunities : Eff unit :=
  fun st => (Normal tt, {| opportunities := []; requests := requests st |}).

Definition get_opportunities : Eff (list Candidate) :=
  fun st => (Normal (opportunities st), st).

Definition scanOpportunities (net : Network) (chain : string) (maxResults : Z)
  : Eff (list Candidate) :=
  new_opportunities ;;
  collectOpportunities net maxResults ;;
  collected <- get_opportunities ;;
  ret (rankOpportunities (engine net) collected maxResults).

(** ** The solana_scan tool *)

Inductive ScanResult :=
| ScanSuccess (opportunities : list Candidate) (count : Z)
| ScanFailure (error : string).

(** [error instanceof Error ? error.message : 'Scan failed'] *)
Definition failure_reason (error : exn) : string :=
  match error with
  | JsError message => message
  | JsThrown => "Scan failed"
  end.

(** The handler of [solana_scan]; a parameter left out is [None]. *)
Definition solana_scan (net : Network) (chain : option string)
  (maxResults : option Z) : Eff ScanResult :=
  let chain := match chain with Some c => c | None => "solana" end in
  let maxResults := match maxResults with Some n => n | None => 5%Z end in
  try_catch
    (opportunities <- scanOpportunities net chain maxResults ;;
     ret (ScanSuccess opportunities (Z.of_nat (List.length opportunities))))
    (fun error => ret (ScanFailure (failure_reason error))).

(** A run from the start: nothing requested yet. *)
Definition start : Store := {| opportunities := []; requests := [] |}.

(** ** Token symbols and mints (src/src/swap.ts) *)

Local Open Scope string_scope.

(** [COMMON_MINTS], the table of the wallet module, and its fields. *)
Definition COMMON_MINTS_SOL : string :=
  "So11111111111111111111111111111111111111112".
Definition COMMON_MINTS_USDC : string :=
  "EPjFWdd5AufqSSqeM2qN1xzybapC8G4wEGGkZwyTDt1v".
Definition COMMON_MINTS_USDT : string :=
  "Es9vMFrzaCERmJfrF4H2FYD4KCoNkY11McCe8BenwNYB".
Definition COMMON_MINTS_RAY : string :=
  "4k3Dyjzvzp8eMZWUXbBCjEvwSkkk59S5iCNLY3QrkX6R".
Definition COMMON_MINTS_SRM : string :=
  "SRMuApVNdxXokk5GT7XD5cUUgXMBCoAz2LHeuAoKWRt".

(** [Object.entries(COMMON_MINTS)], in the order of the literal. *)
Definition COMMON_MINTS : list (string * string) :=
  [("SOL", COMMON_MINTS_SOL);
   ("USDC", COMMON_MINTS_USDC);
   ("USDT", COMMON_MINTS_USDT);
   ("RAY", COMMON_MINTS_RAY);
   ("SRM", COMMON_MINTS_SRM)].

(** [c.toUpperCase()] for one ASCII character: the letters [a] to [z] are
    the only ones with an upper case. *)
Definition Char_toUpperCase (c : ascii) : ascii :=
  let n := nat_of_ascii c in
  if (97 <=? n)%nat && (n <=? 122)%nat then ascii_of_nat (n - 32) else c.

(** [s.toUpperCase()] for a string of ASCII characters. *)
Fixpoint String_toUpperCase (s : string) : string :=
  match s with
  | EmptyString => EmptyString
  | String c rest => String (Char_toUpperCase c) (String_toUpperCase rest)
  end.

(** [resolveTokenMint]: the [switch] on the upper-cased token; both
    branches of the default return the token. *)
Definition resolveTokenMint (token : string) : string :=
  let upperToken := String_toUpperCase token in
  if upperToken =? "SOL" then COMMON_MINTS_SOL
  else if upperToken =? "USDC" then COMMON_MINTS_USDC
  else if upperToken =? "USDT" then COMMON_MINTS_USDT
  else if upperToken =? "RAY" then COMMON_MINTS_RAY
  else if upperToken =? "SRM" then COMMON_MINTS_SRM
  else if (20 <? String.length token)%nat then token else token.

(** The loop of [resolveTokenSymbol] over the entries: the symbol of the
    first entry whose mint is [mint]. *)
Fixpoint symbol_of_mint (entries : list (string * string)) (mint : string)
  : option string :=
  match entries with
  | [] => None
  | (symbol, mintAddress) :: rest =>
      if mintAddress =? mint then Some symbol else symbol_of_mint rest mint
  end.

(** [resolveTokenSymbol]: the symbol of a known mint, else
    [mint.slice(0, 8) + '...']. *)
Definition resolveTokenSymbol (mint : string) : string :=
  match symbol_of_mint COMMON_MINTS mint with
  | Some symbol => symbol
  | None => String.substring 0 8 mint ++ "..."
  end.

Local Open Scope list_scope.

(** * The wallet module (src/unnamed/part_000), the swap module
      (src/src/swap.ts) and the two other tools of src/src/tools.ts

    Amounts.  The amounts of these modules (balances, prices, price impact)
    are exact rationals [Q]: the modules pass them on, and what is computed
    from them in floating point is left to the platform. *)

Local Close Scope float_scope.

Local Open Scope string_scope.

(** ** The platform *)

(** A [Keypair] of the Solana library: [publicKey] is
    [keypair.publicKey.toBase58()]. *)
Record Keypair := {
  publicKey : string;
  secretKey : list nat
}.

(** [account.account.data.parsed.info] of one token account:
    [parsed_amount] is [parseInt(tokenAmount.amount)], [None] for [NaN]. *)
Record TokenAccount := {
  account_mint : string;
  parsed_amount : option Z;
  account_decimals : option Z;
  account_uiAmount : option Q
}.

(** The body of an answer of the order endpoint.  [order_priceImpactPct] is
    the text field; [order_json] is [JSON.stringify] of the whole body. *)
Record OrderData := {
  errorCode : option Z;
  order_error : option string;
  errorMessage : option string;
  order_inputMint : option string;
  order_outputMint : option string;
  order_inAmount : option string;
  order_outAmount : option string;
  order_priceImpactPct : option string;
  order_inUsdValue : option string;
  order_outUsdValue : option string;
  order_router : option string;
  order_transaction : option string;
  order_requestId : option string;
  order_json : string
}.

(** The body of an answer of the execute endpoint. *)
Record ExecuteResult := {
  execute_error : option string;
  execute_signature : option string
}.

(** What the tools do to the outside, oldest first. *)
Inductive Call :=
| RpcGetBalance (rpcUrl address : string)
| RpcGetTokenAccounts (rpcUrl address : string)
| HttpGet (url : string)
| HttpPost (url signedTransaction : string) (requestId : option string).

(** The libraries and services the tools call.  A service is asked with
    the number of calls made before ([tick]); [Abrupt] is a call that
    throws.
    - [Keypair_generate n]: the n-th [Keypair.generate()] of the run;
    - [wallet_json]: [JSON.stringify(Array.from(keypair.secretKey), null, 2)];
    - [Keypair_fromJson]:
      [Keypair.fromSecretKey(Uint8Array.from(JSON.parse(text)))];
    - [fs_mkdir_error], [fs_write_error]: the error, if any, of
      [fs.mkdir(path.dirname(walletPath), { recursive: true })] and of
      [fs.writeFile(walletPath, ...)];
    - [String_of_error]: an error as a template literal prints it;
    - [new_Connection_error], [new_PublicKey_error]: the error, if any, of
      the two constructors;
    - [sign_transaction wallet transaction]: deserialize the base64
      transaction, sign it, serialize it to base64;
    - [parseFloat]: of a text field that may be missing;
    - [floor_text usd price d]:
      [Math.floor(usd / price * Math.pow(10, d)).toString()] in floating
      point. *)
Record Platform := {
  Keypair_generate : nat -> Keypair;
  wallet_json : Keypair -> string;
  Keypair_fromJson : string -> completion Keypair;
  fs_mkdir_error : string -> option exn;
  fs_write_error : string -> option exn;
  String_of_error : exn -> string;
  new_Connection_error : string -> option exn;
  new_PublicKey_error : string -> option exn;
  rpc_getBalance : nat -> string -> string -> completion Z;
  rpc_getTokenAccounts :
    nat -> string -> string -> completion (list (option TokenAccount));
  jupiter_order : nat -> string -> completion OrderData;
  jupiter_execute : nat -> string -> option string -> completion ExecuteResult;
  sign_transaction : Keypair -> option string -> completion string;
  parseFloat : option string -> option Q;
  floor_text : Q -> Q -> Z -> string
}.

(** The files (path and text, the first entry of a path is its file), the
    number of keypairs generated, and the calls made. *)
Record World := {
  files : list (string * string);
  generated : nat;
  calls : list Call
}.

Definition IO (A : Type) : Type := World -> completion A * World.

Definition io_ret {A} (a : A) : IO A := fun w => (Normal a, w).

Definition io_throw {A} (e : exn) : IO A := fun w => (Abrupt e, w).

Definition io_bind {A B} (m : IO A) (k : A -> IO B) : IO B :=
  fun w =>
    match m w with
    | (Normal a, w') => k a w'
    | (Abrupt e, w') => (Abrupt e, w')
    end.

Definition io_try_catch {A} (body : IO A) (handler : exn -> IO A) : IO A :=
  fun w =>
    match body w with
    | (Normal a, w') => (Normal a, w')
    | (Abrupt e, w') => handler e w'
    end.

Declare Scope io_scope.
Delimit Scope io_scope with io.
Notation "x <- m ;; k" := (io_bind m (fun x => k))
  (at level 61, m at next level, right associativity) : io_scope.
Notation "m ;; k" := (io_bind m (fun _ => k))
  (at level 61, right associativity) : io_scope.

(** A step that throws the error, if there is one. *)
Definition io_check (error : option exn) : IO unit :=
  match error with
  | Some e => io_throw e
  | None => io_ret tt
  end.

(** A call of a service: logged, then answered. *)
Definition io_call {A} (service : nat -> completion A) (call : Call) : IO A :=
  fun w =>
    (service (List.length (calls w)),
     {| files := files w; generated := generated w;
        calls := calls w ++ [call] |}).

Fixpoint lookup_file (fs : list (string * string)) (path : string)
  : option string :=
  match fs with
  | [] => None
  | (p, text) :: rest => if p =? path then Some text else lookup_file rest path
  end.

Definition ENOENT (path : string) : exn :=
  JsError ("ENOENT: no such file or directory, open '" ++ path ++ "'").

(** [fs.access(path)] *)
Definition fs_access (path : string) : IO unit :=
  fun w =>
    match lookup_file (files w) path with
    | Some _ => (Normal tt, w)
    | None => (Abrupt (ENOENT path), w)
    end.

(** [fs.readFile(path, 'utf8')] *)
Definition fs_readFile (path : string) : IO string :=
  fun w =>
    match lookup_file (files w) path with
    | Some text => (Normal text, w)
    | None => (Abrupt (ENOENT path), w)
    end.

(** [fs.writeFile(path, text)] *)
Definition fs_writeFile (pf : Platform) (path text : string) : IO unit :=
  fun w =>
    match fs_write_error pf path with
    | Some e => (Abrupt e, w)
    | None =>
        (Normal tt,
         {| files := (path, text) :: files w; generated := generated w;
            calls := calls w |})
    end.

(** [Keypair.generate()] *)
Definition generate_keypair (pf : Platform) : IO Keypair :=
  fun w =>
    (Normal (Keypair_generate pf (generated w)),
     {| files := files w; generated := S (generated w); calls := calls w |}).

(** A value that a library call returns or throws. *)
Definition io_lift {A} (c : completion A) : IO A := fun w => (c, w).

(** ** The wallet module *)

Local Open Scope io_scope.

Record TokenBalance := {
  token_mint : string;
  token_balance : Z;
  token_decimals : option Z;
  token_uiAmount : Q
}.

Record WalletInfo := {
  info_address : string;
  solBalance : Q;
  tokenBalances : list TokenBalance
}.

Definition LAMPORTS_PER_SOL : Q := 1000000000%Q.

(** [x || d] for an amount: [0], [NaN] and [undefined] (the last two are
    [None]) are falsy. *)
Definition or_amount (x : option Q) (d : Q) : Q :=
  match x with
  | Some q => if Qeq_bool q 0 then d else q
  | None => d
  end.

(** [createWallet]: generate, make the directory, write the file, return
    the address. *)
Definition createWallet (pf : Platform) (walletPath : string) : IO string :=
  keypair <- generate_keypair pf ;;
  io_check (fs_mkdir_error pf walletPath) ;;
  fs_writeFile pf walletPath (wallet_json pf keypair) ;;
  io_ret (publicKey keypair).

(** [loadWallet]: whatever fails is thrown again as one [Error]. *)
Definition loadWallet (pf : Platform) (walletPath : string) : IO Keypair :=
  io_try_catch
    (secretKeyString <- fs_readFile walletPath ;;
     io_lift (Keypair_fromJson pf secretKeyString))
    (fun error =>
       io_throw (JsError ("Failed to load wallet from " ++ walletPath ++ ": "
                          ++ String_of_error pf error))).

Definition getAddress (pf : Platform) (walletPath : string) : IO string :=
  keypair <- loadWallet pf walletPath ;;
  io_ret (publicKey keypair).

(** The loop of [getBalance] over the token accounts, on its local array
    [tokenBalances]: reading an entry that is [null] throws; only accounts
    with [balance > 0] are pushed. *)
Fixpoint push_token_balances (accounts : list (option TokenAccount))
  (tokenBalances : list TokenBalance) : completion unit * list TokenBalance :=
  match accounts with
  | [] => (Normal tt, tokenBalances)
  | None :: _ => (Abrupt TypeError, tokenBalances)
  | Some accountData :: rest =>
      let uiAmount := or_amount (account_uiAmount accountData) 0 in
      match parsed_amount accountData with
      | Some balance =>
          if (0 <? balance)%Z
          then push_token_balances rest
                 (tokenBalances
                  ++ [{| token_mint := account_mint accountData;
                         token_balance := balance;
                         token_decimals := account_decimals accountData;
                         token_uiAmount := uiAmount |}])%list
          else push_token_balances rest tokenBalances
      | None => push_token_balances rest tokenBalances
      end
  end.

(** [getBalance]: the SOL balance must be had; the token accounts are
    read inside a [try] whose [catch] only warns. *)
Definition getBalance (pf : Platform) (rpcUrl publicKeyStr : string)
  : IO WalletInfo :=
  io_check (new_Connection_error pf rpcUrl) ;;
  io_check (new_PublicKey_error pf publicKeyStr) ;;
  solBalanceLamports <-
    io_call (fun tick => rpc_getBalance pf tick rpcUrl publicKeyStr)
            (RpcGetBalance rpcUrl publicKeyStr) ;;
  let solBalance := (inject_Z solBalanceLamports / LAMPORTS_PER_SOL)%Q in
  tokenBalances <-
    io_try_catch
      (tokenAccounts <-
         io_call (fun tick => rpc_getTokenAccounts pf tick rpcUrl publicKeyStr)
                 (RpcGetTokenAccounts rpcUrl publicKeyStr) ;;
       io_ret (snd (push_token_balances tokenAccounts [])))
      (fun error => io_ret []) ;;
  io_ret {| info_address := publicKeyStr;
            solBalance := solBalance;
            tokenBalances := tokenBalances |}.

(** [walletExists]: [fs.access] inside a [try] that returns [false]. *)
Definition walletExists (walletPath : string) : IO bool :=
  io_try_catch
    (fs_access walletPath ;; io_ret true)
    (fun _ => io_ret false).

(** ** The swap module *)

Definition JUPITER_LITE_API : string := "https://lite-api.jup.ag".

Definition order_url (inputMint outputMint amount taker : string) : string :=
  JUPITER_LITE_API ++ "/ultra/v1/order?inputMint=" ++ inputMint
  ++ "&outputMint=" ++ outputMint ++ "&amount=" ++ amount
  ++ "&taker=" ++ taker.

Definition execute_url : string := JUPITER_LITE_API ++ "/ultra/v1/execute".

Record SwapQuote := {
  quote_inputMint : option string;
  quote_outputMint : option string;
  inAmount : option string;
  outAmount : option string;
  priceImpactPct : option Q;
  inUsdValue : option string;
  outUsdValue : option string;
  router : string
}.

Record SwapResult := {
  signature : option string;
  quote : SwapQuote;
  inputAmount : option Q;
  outputAmount : option Q;
  inputSymbol : string;
  outputSymbol : string
}.

(** [data.errorCode || data.error], as a test. *)
Definition order_failed (data : OrderData) : bool :=
  match errorCode data with
  | Some code => negb (code =? 0)%Z
  | None => false
  end
  || negb (Js.or_str (order_error data) EmptyString =? EmptyString)%string.

(** [data.errorMessage || data.error || JSON.stringify(data)] *)
Definition order_failure_message (data : OrderData) : string :=
  Js.or_str (errorMessage data) (Js.or_str (order_error data) (order_json data)).

Definition getQuote (pf : Platform) (inputMint outputMint amount taker : string)
  : IO SwapQuote :=
  let url := order_url inputMint outputMint amount taker in
  data <- io_call (fun tick => jupiter_order pf tick url) (HttpGet url) ;;
  if order_failed data
  then io_throw (JsError (order_failure_message data))
  else
    io_ret {| quote_inputMint := order_inputMint data;
              quote_outputMint := order_outputMint data;
              inAmount := order_inAmount data;
              outAmount := order_outAmount data;
              priceImpactPct :=
                parseFloat pf (Some (Js.or_str (order_priceImpactPct data) "0"));
              inUsdValue := order_inUsdValue data;
              outUsdValue := order_outUsdValue data;
              router := Js.or_str (order_router data) "jupiter" |}.

Definition executeSwap (pf : Platform)
  (rpcUrl walletPath inputMint outputMint amount : string)
  (label : option string) : IO SwapResult :=
  io_check (new_Connection_error pf rpcUrl) ;;
  wallet <- loadWallet pf walletPath ;;
  let taker := publicKey wallet in
  (* Get quote *)
  quote <- getQuote pf inputMint outputMint amount taker ;;
  (* Get transaction *)
  let url := order_url inputMint outputMint amount taker in
  orderData <- io_call (fun tick => jupiter_order pf tick url) (HttpGet url) ;;
  if order_failed orderData
  then io_throw (JsError (order_failure_message orderData))
  else
    (* Sign and send transaction *)
    signedTransaction <-
      io_lift (sign_transaction pf wallet (order_transaction orderData)) ;;
    (* Execute *)
    executeResult <-
      io_call (fun tick =>
                 jupiter_execute pf tick signedTransaction
                                 (order_requestId orderData))
              (HttpPost execute_url signedTransaction
                        (order_requestId orderData)) ;;
    match Js.or_str (execute_error executeResult) EmptyString with
    | String c rest => io_throw (JsError (String c rest))
    | EmptyString =>
        io_ret {| signature := execute_signature executeResult;
                  quote := quote;
                  inputAmount := parseFloat pf (inAmount quote);
                  outputAmount := parseFloat pf (outAmount quote);
                  inputSymbol := resolveTokenSymbol inputMint;
                  outputSymbol := resolveTokenSymbol outputMint |}
    end.

(** ** The solana_wallet and solana_swap tools *)

(** The configuration after [getConfig] has filled in the defaults. *)
Record PluginConfig := {
  rpcUrl : string;
  walletPath : string;
  autoCreateWallet : bool
}.

Inductive WalletAction :=
| ActionCreate
| ActionBalance
| ActionAddress
| ActionOther (action : string).

(** The object a wallet handler returns; a field that the object does not
    have is [None] (or [false] for [created]). *)
Record WalletReply := {
  success : bool;
  message : option string;
  address : option string;
  note : option string;
  created : bool;
  error : option string;
  balances : option (Q * list TokenBalance)
}.

Definition wallet_reply (success : bool) : WalletReply :=
  {| success := success; message := None; address := None; note := None;
     created := false; error := None; balances := None |}.

Definition with_address (a : string) (r : WalletReply) : WalletReply :=
  {| success := success r; message := message r; address := Some a;
     note := note r; created := created r; error := error r;
     balances := balances r |}.

Definition with_message (m : string) (r : WalletReply) : WalletReply :=
  {| success := success r; message := Some m; address := address r;
     note := note r; created := created r; error := error r;
     balances := balances r |}.

Definition with_note (n : string) (r : WalletReply) : WalletReply :=
  {| success := success r; message := message r; address := address r;
     note := Some n; created := created r; error := error r;
     balances := balances r |}.

Definition with_created (r : WalletReply) : WalletReply :=
  {| success := success r; message := message r; address := address r;
     note := note r; created := true; error := error r;
     balances := balances r |}.

Definition with_error (e : string) (r : WalletReply) : WalletReply :=
  {| success := success r; message := message r; address := address r;
     note := note r; created := created r; error := Some e;
     balances := balances r |}.

(** [{ ...walletInfo }] *)
Definition with_info (info : WalletInfo) (r : WalletReply) : WalletReply :=
  {| success := success r; message := message r;
     address := Some (info_address info);
     note := note r; created := created r; error := error r;
     balances := Some (solBalance info, tokenBalances info) |}.

Definition wallet_not_found : WalletReply :=
  with_error "Wallet not found" (wallet_reply false).

(** The handler of [solana_wallet]. *)
Definition solana_wallet (pf : Platform) (config : PluginConfig)
  (action : WalletAction) : IO WalletReply :=
  let walletPath := walletPath config in
  match action with
  | ActionCreate =>
      exists_ <- walletExists walletPath ;;
      if exists_ : bool
      then
        address <- getAddress pf walletPath ;;
        io_ret (with_address address
                  (with_message "Wallet already exists" (wallet_reply true)))
      else
        address <- createWallet pf walletPath ;;
        io_ret (with_note "Please fund this wallet with SOL to start trading"
                  (with_address address
                     (with_message "Wallet created successfully"
                        (wallet_reply true))))
  | ActionAddress =>
      exists_ <- walletExists walletPath ;;
      if negb exists_
      then
        if autoCreateWallet config
        then
          address <- createWallet pf walletPath ;;
          io_ret (with_created (with_address address (wallet_reply true)))
        else io_ret wallet_not_found
      else
        address <- getAddress pf walletPath ;;
        io_ret (with_address address (wallet_reply true))
  | ActionBalance =>
      exists_ <- walletExists walletPath ;;
      if negb exists_
      then
        if autoCreateWallet config
        then
          address <- createWallet pf walletPath ;;
          walletInfo <- getBalance pf (rpcUrl config) address ;;
          io_ret (with_created (with_info walletInfo (wallet_reply true)))
        else io_ret wallet_not_found
      else
        address <- getAddress pf walletPath ;;
        walletInfo <- getBalance pf (rpcUrl config) address ;;
        io_ret (with_info walletInfo (wallet_reply true))
  | ActionOther _ =>
      io_ret (with_error "Invalid action" (wallet_reply false))
  end.

(** The object a swap handler returns. *)
Inductive SwapReply :=
| SwapDone (signature : option string) (inputAmount outputAmount : option Q)
           (inputSymbol outputSymbol : string) (priceImpact : option Q)
| SwapFailed (error : string).

(** The handler of [solana_swap]. *)
Definition solana_swap (pf : Platform) (config : PluginConfig)
  (inputToken outputToken : string) (amountUsd : Q) : IO SwapReply :=
  let walletPath := walletPath config in
  exists_ <- walletExists walletPath ;;
  if negb exists_
  then io_ret (SwapFailed "Wallet not found. Create wallet first.")
  else
    io_try_catch
      ((* Resolve token symbols to mint addresses *)
       let inputMint := resolveTokenMint inputToken in
       let outputMint := resolveTokenMint outputToken in
       let inputDecimals :=
         if (inputMint =? COMMON_MINTS_SOL)%string then 9%Z else 6%Z in
       let roughPrice :=
         if (inputMint =? COMMON_MINTS_SOL)%string then 100%Q else 1%Q in
       let rawAmount := floor_text pf amountUsd roughPrice inputDecimals in
       result <-
         executeSwap pf (rpcUrl config) walletPath inputMint outputMint
                     rawAmount
                     (Some ("swap_" ++ inputToken ++ "_" ++ outputToken)) ;;
       io_ret (SwapDone (signature result) (inputAmount result)
                        (outputAmount result) (inputSymbol result)
                        (outputSymbol result) (priceImpactPct (quote result))))
      (fun error => io_ret (SwapFailed
                              (match error with
                               | JsError message => message
                               | JsThrown => "Swap failed"
                               end))).

Local Close Scope io_scope.

Local Open Scope list_scope.
(** ** Vocabulary of the properties *)

Local Open Scope list_scope.

Local Open Scope float_scope.

(** [a] may stand before [b] in a list that descends by score. *)
Definition score_ge (a b : Candidate) : Prop := (score b <=? score a) = true.

(** The candidates of [arr] whose mint is neither in [seen] nor earlier in
    [arr]. *)
Fixpoint first_occurrences (seen arr : list Candidate) : list Candidate :=
  match arr with
  | [] => []
  | x :: rest =>
      if existsb (same_mint x) seen
      then first_occurrences (seen ++ [x]) rest
      else x :: first_occurrences (seen ++ [x]) rest
  end.

(** [score c == v], as a test. *)
Definition scores (v : float) (c : Candidate) : bool := score c =? v.

(** What rounding returns: a zero, an infinity or a finite number, of the
    sign [s]; never NaN. *)
Definition signed (s : bool) (x : spec_float) : Prop :=
  x = S754_zero s \/ x = S754_infinity s \/ exists m e, x = S754_finite s m e.

(** A zero, a positive number or [+Infinity]. *)
Definition nonneg (x : float) : Prop :=
  match Prim2SF x with
  | S754_zero _ | S754_infinity false | S754_finite false _ _ => True
  | _ => False
  end.

(** Neither NaN nor an infinity. *)
Definition finite_number (x : float) : Prop :=
  match Prim2SF x with
  | S754_zero _ | S754_finite _ _ _ => True
  | _ => False
  end.

(** A mantissa and an exponent that a binary64 number can have. *)
Definition canonical (m : positive) (e : Z) : Prop :=
  bounded prec emax m e = true.

(** A running total that is still a number, and one that is moreover a
    zero, positive or [+Infinity]. *)
Definition number_value (v : Js.value) : Prop :=
  exists total, v = Js.Num total /\ is_nan total = false.

Definition nonneg_value (v : Js.value) : Prop :=
  exists total, v = Js.Num total /\ nonneg total.

(** The six-hour change of a pool is a number, or missing. *)
Definition h6_not_text (attr : PoolAttributes) : Prop :=
  match change_h6 (price_change_percentage attr) with
  | Js.Text _ => False
  | _ => True
  end.

(** Started with an array that satisfies [pre], [m] leaves one that
    satisfies [post], whether it returns or throws. *)
Definition leaves {A} (pre post : list Candidate -> Prop) (m : Eff A) : Prop :=
  forall st, pre (opportunities st) -> post (opportunities (snd (m st))).

Definition from_boosted (c : Candidate) : Prop := source c = "dexscreener-boosted".

Definition from_trending (c : Candidate) : Prop :=
  source c = "geckoterminal-trending".

(** Every boosted candidate stands before every trending one. *)
Definition boosted_then_trending (l : list Candidate) : Prop :=
  exists bs ts, l = bs ++ ts /\ Forall from_boosted bs /\ Forall from_trending ts.

(** The store in which the scan ranks what it collected. *)
Definition collected (net : Network) (maxResults : Z) (st : Store) : Store :=
  snd (collectOpportunities net maxResults
         {| opportunities := []; requests := requests st |}).

(** The number of elements [slice(0, maxResults)] keeps of [n]. *)
Definition kept_of (n : nat) (maxResults : Z) : Z :=
  if (maxResults <? 0)%Z then Z.max (Z.of_nat n + maxResults) 0
  else Z.min maxResults (Z.of_nat n).

(** The ratio as the specification words it:
    [volume24h / max(liquidity, 1)]. *)
Definition spec_volLiqRatio (volume24h liquidity : float) : float :=
  volume24h / Js.Math_max liquidity 1.

(** The length test of the trending loop on the extracted address. *)
Definition long_enough (pool : Pool) : bool :=
  (10 <? String.length (tokenAddr pool))%nat.

(** What the trending loop pushes for a pool that passed the test. *)
Definition candidates_of (js : Js.Engine) (pool : Pool) : list Candidate :=
  match attributes pool with
  | Some attr => [trendingCandidate js pool attr]
  | None => []
  end.

(** ** What the loops push, as functions of the responses *)

(** The entries of an array when none of them is [null]. *)
Fixpoint all_present {A} (l : list (option A)) : option (list A) :=
  match l with
  | [] => Some []
  | None :: _ => None
  | Some x :: rest => option_map (cons x) (all_present rest)
  end.

(** What one token-detail response contributes: the candidate of its first
    pair, or nothing when the request failed, [pairs] is missing or empty,
    or the first pair is [null]. *)
Definition candidate_of_detail (token : BoostedToken)
  (response : completion TokenData) : list Candidate :=
  match response with
  | Normal tokenData =>
      match pairs tokenData with
      | Some (Some first :: _) => [boostedCandidate token first]
      | _ => []
      end
  | Abrupt _ => []
  end.

(** What the loop over [tokens] contributes when its first request is the
    request number [tick]. *)
Fixpoint boosted_pushes (net : Network) (tick : nat) (tokens : list BoostedToken)
  : list Candidate :=
  match tokens with
  | [] => []
  | token :: rest =>
      candidate_of_detail token
        (token_pairs net tick (token_url (tokenAddress token)))
      ++ boosted_pushes net (S tick) rest
  end.

(** What the loop over [pools] contributes: it stops at a [null] entry and
    at an entry that passes the length test but has no attributes. *)
Fixpoint trending_pushes (js : Js.Engine) (pools : list (option Pool))
  : list Candidate :=
  match pools with
  | [] => []
  | None :: _ => []
  | Some pool :: rest =>
      if long_enough pool
      then match attributes pool with
           | Some attr => trendingCandidate js pool attr :: trending_pushes js rest
           | None => []
           end
      else trending_pushes js rest
  end.

(** What the trending block contributes for the response to its request. *)
Definition trending_part (js : Js.Engine) (response : completion TrendingData)
  (maxResults : Z) : list Candidate :=
  match response with
  | Normal trendingData =>
      trending_pushes js (Array_slice0 (or_empty (data trendingData)) maxResults)
  | Abrupt _ => []
  end.

(** The tokens the boosted loop visits, when the boosted response can be
    read: no request failure and no [null] entry. *)
Definition solTokens_of (response : completion (option (list (option BoostedToken))))
  (maxResults : Z) : option (list BoostedToken) :=
  match response with
  | Normal boostedData =>
      option_map (fun tokens => Array_slice0 (filter is_solana tokens) maxResults)
                 (all_present (or_empty boostedData))
  | Abrupt _ => None
  end.

(** An entry on which the trending loop throws: [null], or a pool that
    passes the length test and has no attributes. *)
Definition malformed (entry : option Pool) : Prop :=
  match entry with
  | None => True
  | Some pool => long_enough pool = true /\ attributes pool = None
  end.

(** What every candidate of a scan satisfies: a symbol, one of the two
    sources; a score of at least 0 and figures that are numbers when it is a
    boosted candidate; a mint of eleven characters or more and no valuation
    when it is a trending one. *)
Definition well_formed (c : Candidate) : Prop :=
  symbol c <> EmptyString /\
  (from_boosted c \/ from_trending c) /\
  (from_boosted c ->
   (0 <=? score c) = true /\
   is_nan (volume24h c) = false /\ is_nan (liquidity c) = false /\
   is_nan (fdv c) = false) /\
  (from_trending c ->
   (11 <= String.length (mint c))%nat /\ fdv c = 0).

(** ** Sample inputs *)

Definition no_change : PriceChange :=
  {| m5 := None; h1 := None; h6 := None; h24 := None |}.

(** fdv=300000, m5=5, h1=10, h6=0, h24=0, liquidity=50000, volume24h=150000,
    buys24h=120, sells24h=80. *)
Definition scenario_pair : Pair :=
  {| baseToken_symbol := Some "TOK";
     pair_priceUsd := 1;
     pair_priceChange :=
       {| m5 := Some 5; h1 := Some 10; h6 := Some 0; h24 := Some 0 |};
     volume_h24 := Some 150000;
     liquidity_usd := Some 50000;
     pair_fdv := Some 300000;
     txns_h24_buys := Some 120;
     txns_h24_sells := Some 80 |}.

(** A quiet pair with enough liquidity and balanced trades, of the given
    [fdv]: only the early stage bonus can score. *)
Definition quiet_pair (fdv : option float) : Pair :=
  {| baseToken_symbol := Some "TOK";
     pair_priceUsd := 1;
     pair_priceChange := no_change;
     volume_h24 := None;
     liquidity_usd := Some 20000;
     pair_fdv := fdv;
     txns_h24_buys := Some 1;
     txns_h24_sells := Some 1 |}.

(** m5=40 and liquidity=10000, nothing else known: the running total is
    negative. *)
Definition pumped_thin_pair : Pair :=
  {| baseToken_symbol := None;
     pair_priceUsd := 0;
     pair_priceChange :=
       {| m5 := Some 40; h1 := None; h6 := None; h24 := None |};
     volume_h24 := None;
     liquidity_usd := Some 10000;
     pair_fdv := None;
     txns_h24_buys := None;
     txns_h24_sells := None |}.

(** A pair that scores 5. *)
Definition low_pair : Pair :=
  {| baseToken_symbol := Some "TOK";
     pair_priceUsd := 0;
     pair_priceChange := no_change;
     volume_h24 := None;
     liquidity_usd := Some 20000;
     pair_fdv := None;
     txns_h24_buys := None;
     txns_h24_sells := None |}.

(** A pair of which only the volume and the liquidity are known: besides
    the early stage bonus of an unknown valuation, only the volume/liquidity
    ratio and the thin-liquidity penalty can score. *)
Definition ratio_pair (volume liquidity : float) : Pair :=
  {| baseToken_symbol := Some "TOK";
     pair_priceUsd := 1;
     pair_priceChange := no_change;
     volume_h24 := Some volume;
     liquidity_usd := Some liquidity;
     pair_fdv := None;
     txns_h24_buys := Some 1;
     txns_h24_sells := Some 1 |}.

(** The engine on the texts and the numbers of the samples: the plain
    decimals below are read and written as JavaScript does, a text that is
    none of them (['1.020.862010'] among them) reads as NaN, and an array
    that [sort] may leave in any order stays as it is, as it does for these
    arrays in V8. *)
Definition sample_engine : Js.Engine :=
  {| Js.ToNumber := fun s =>
       if (s =? "0.51")%string then 0.51
       else if (s =? "0.86")%string then 0.86
       else if (s =? "10")%string then 10
       else if (s =? "-1.5")%string then -1.5
       else if (s =? "-2")%string then -2
       else if (s =? "-3")%string then -3
       else if (s =? "20102010")%string then 20102010
       else nan;
     Js.ToString := fun n =>
       if n =? 1.02 then "1.02"%string
       else if n =? 20 then "20"%string
       else if n =? 10 then "10"%string
       else if n =? 0 then "0"%string
       else "NaN"%string;
     Js.sort_order := fun _ => [] |}.

(** The object [{ m5, h1, h6, h24 }]. *)
Definition changes (five_minutes hour six_hours day : Js.value) : Changes :=
  {| change_m5 := five_minutes; change_h1 := hour;
     change_h6 := six_hours; change_h24 := day |}.

(** Pool attributes that score 50, their price change a number. *)
Definition sample_attr : PoolAttributes :=
  {| name := Some "ABC/SOL";
     base_token_price_usd := 1;
     price_change_percentage :=
       changes Js.Undefined (Js.Num 10) Js.Undefined Js.Undefined;
     volume_usd_h24 := 100000;
     reserve_in_usd := 20000 |}.

(** Pool attributes as GeckoTerminal sends them, the price changes as
    text: a pool that rose by 0.51 percent in the hour and by 0.86 in six
    hours. *)
Definition text_attr : PoolAttributes :=
  {| name := Some "UP/SOL";
     base_token_price_usd := 1;
     price_change_percentage :=
       changes Js.Undefined (Js.Text "0.51") (Js.Text "0.86") Js.Undefined;
     volume_usd_h24 := 100000;
     reserve_in_usd := 20000 |}.

(** The same pool had it risen by 10 percent in the hour and in six
    hours. *)
Definition text_tens_attr : PoolAttributes :=
  {| name := Some "TEN/SOL";
     base_token_price_usd := 1;
     price_change_percentage :=
       changes Js.Undefined (Js.Text "10") (Js.Text "10") Js.Undefined;
     volume_usd_h24 := 100000;
     reserve_in_usd := 20000 |}.

(** A pool that fell, and scores 10; a pool that rose by 10 percent in the
    hour and fell over six hours, and scores 50: price changes as text. *)
Definition text_flat_attr : PoolAttributes :=
  {| name := Some "FLAT/SOL";
     base_token_price_usd := 1;
     price_change_percentage :=
       changes Js.Undefined (Js.Text "-1.5") (Js.Text "-2") Js.Undefined;
     volume_usd_h24 := 10000;
     reserve_in_usd := 20000 |}.

Definition text_hour_attr : PoolAttributes :=
  {| name := Some "HOUR/SOL";
     base_token_price_usd := 1;
     price_change_percentage :=
       changes Js.Undefined (Js.Text "10") (Js.Text "-3") Js.Undefined;
     volume_usd_h24 := 100000;
     reserve_in_usd := 20000 |}.

Definition sample_pool (address : string) : Pool :=
  {| base_token_id := Some ("solana_" ++ address)%string;
     attributes := Some sample_attr |}.

Definition pool_of (address : string) (attr : PoolAttributes) : Pool :=
  {| base_token_id := Some ("solana_" ++ address)%string;
     attributes := Some attr |}.

Definition one_pool (address : string) : TrendingData :=
  {| data := Some [Some (sample_pool address)] |}.

(** The boosted provider is down; the trending provider answers with one
    well-formed pool. *)
Definition boosted_down : Network :=
  {| engine := sample_engine;
     boosts_latest := fun _ _ => Abrupt (JsError "fetch failed");
     token_pairs := fun _ _ => Normal {| pairs := Some [Some low_pair] |};
     trending_pools := fun _ _ => Normal (one_pool "ABCDEFGHIJKLMNOP") |}.

(** Three trending pools, with addresses of sixteen, ten and eleven
    characters. *)
Definition three_pools : list Pool :=
  [sample_pool "ABCDEFGHIJKLMNOP"; sample_pool "ABCDEFGHIJ";
   sample_pool "ABCDEFGHIJK"].

(** Both providers answer, and both list the mint [ABCDEFGHIJKLMNOP]: the
    boosted one with score 5, the trending one with score 50. *)
Definition both_up : Network :=
  {| engine := sample_engine;
     boosts_latest := fun _ _ =>
       Normal (Some [Some {| chainId := Some "solana";
                             tokenAddress := "ABCDEFGHIJKLMNOP" |};
                     Some {| chainId := Some "ethereum";
                             tokenAddress := "0xABCDEFGHIJKLMN" |}]);
     token_pairs := fun _ _ => Normal {| pairs := Some [Some low_pair] |};
     trending_pools := fun _ _ =>
       Normal {| data := Some (map Some three_pools) |} |}.

(** The boosted provider answers as in [both_up]; the trending provider is
    down. *)
Definition trending_down : Network :=
  {| engine := sample_engine;
     boosts_latest := boosts_latest both_up;
     token_pairs := token_pairs both_up;
     trending_pools := fun _ _ => Abrupt (JsError "fetch failed") |}.

(** The trending provider answers with one pool whose address has exactly
    ten characters. *)
Definition ten_characters : Network :=
  {| engine := sample_engine;
     boosts_latest := fun _ _ => Normal (Some []);
     token_pairs := fun _ _ => Abrupt JsThrown;
     trending_pools := fun _ _ => Normal (one_pool "ABCDEFGHIJ") |}.

(** Two boosted tokens; the detail request of the first fails, the one of
    the second (request number 2) is answered; the trending provider is
    down. *)
Definition flaky_details : Network :=
  {| engine := sample_engine;
     boosts_latest := fun _ _ =>
       Normal (Some [Some {| chainId := Some "solana";
                             tokenAddress := "AAAAAAAAAAAAAAAA" |};
                     Some {| chainId := Some "solana";
                             tokenAddress := "BBBBBBBBBBBBBBBB" |}]);
     token_pairs := fun tick _ =>
       if (tick =? 2)%nat then Normal {| pairs := Some [Some low_pair] |}
       else Abrupt (JsError "fetch failed");
     trending_pools := fun _ _ => Abrupt (JsError "fetch failed") |}.

(** The trending provider answers with a well-formed pool, a [null] entry
    and another well-formed pool. *)
Definition broken_entry : Network :=
  {| engine := sample_engine;
     boosts_latest := fun _ _ => Normal (Some []);
     token_pairs := fun _ _ => Abrupt JsThrown;
     trending_pools := fun _ _ =>
       Normal {| data := Some (map Some [sample_pool "ABCDEFGHIJKLMNOP"]
                               ++ None :: [Some (sample_pool "QRSTUVWXYZABCDEF")]) |} |}.

(** The boosted provider lists one mint with score 5, the trending provider
    another with score 50. *)
Definition two_mints : Network :=
  {| engine := sample_engine;
     boosts_latest := boosts_latest both_up;
     token_pairs := token_pairs both_up;
     trending_pools := fun _ _ => Normal (one_pool "QRSTUVWXYZABCDEF") |}.

(** The boosted provider lists one mint with score 5; the trending provider
    lists two others, both with score 50. *)
Definition tied_pools : Network :=
  {| engine := sample_engine;
     boosts_latest := boosts_latest both_up;
     token_pairs := token_pairs both_up;
     trending_pools := fun _ _ =>
       Normal {| data := Some [Some (sample_pool "QRSTUVWXYZABCDEF");
                               Some (sample_pool "GHIJKLMNOPQRSTUV")] |} |}.

(** The boosted provider lists nothing; the trending provider lists three
    pools with their price changes as text: one that scores 10, the pool of
    [text_attr], and one that scores 50. *)
Definition text_changes : Network :=
  {| engine := sample_engine;
     boosts_latest := fun _ _ => Normal (Some []);
     token_pairs := fun _ _ => Abrupt JsThrown;
     trending_pools := fun _ _ =>
       Normal {| data :=
                   Some [Some (pool_of "FLATFLATFLATFLAT" text_flat_attr);
                         Some (pool_of "UPUPUPUPUPUPUPUP" text_attr);
                         Some (pool_of "HOURHOURHOURHOUR" text_hour_attr)] |} |}.

Local Close Scope float_scope.

(** What [loadWallet] throws for the failure [e]. *)
Definition load_failure (pf : Platform) (path : string) (e : exn) : exn :=
  JsError ("Failed to load wallet from " ++ path ++ ": "
           ++ String_of_error pf e)%string.

(** A platform on which everything works: keypair number [n] has the
    address [key] followed by [n] stars, a wallet file holds the address,
    the wallet owns one SOL and two token accounts, one of them empty. *)
Definition sample_keypair (n : nat) : Keypair :=
  {| publicKey := ("key" ++ String.concat EmptyString (repeat "*" n))%string;
     secretKey := [n] |}.

Definition sample_order : OrderData :=
  {| errorCode := None; order_error := None; errorMessage := None;
     order_inputMint := Some COMMON_MINTS_USDC;
     order_outputMint := Some COMMON_MINTS_SOL;
     order_inAmount := Some "10000000"%string;
     order_outAmount := Some "100000000"%string;
     order_priceImpactPct := Some "0.01"%string;
     order_inUsdValue := None; order_outUsdValue := None;
     order_router := None;
     order_transaction := Some "dHg="%string;
     order_requestId := Some "r1"%string;
     order_json := "{}"%string |}.


Definition sample_platform : Platform :=
  {| Keypair_generate := sample_keypair;
     wallet_json := fun keypair => publicKey keypair;
     Keypair_fromJson := fun text =>
       if String.prefix "key" text
       then Normal {| publicKey := text;
                      secretKey := [String.length text - 3]%nat |}
       else Abrupt (JsError "bad secret key size");
     fs_mkdir_error := fun _ => None;
     fs_write_error := fun _ => None;
     String_of_error := fun e =>
       match e with
       | JsError m => ("Error: " ++ m)%string
       | JsThrown => "thrown"%string
       end;
     new_Connection_error := fun _ => None;
     new_PublicKey_error := fun _ => None;
     rpc_getBalance := fun _ _ _ => Normal 1000000000%Z;
     rpc_getTokenAccounts := fun _ _ _ =>
       Normal [Some {| account_mint := COMMON_MINTS_USDC;
                       parsed_amount := Some 5000000%Z;
                       account_decimals := Some 6%Z;
                       account_uiAmount := Some 5%Q |};
               Some {| account_mint := COMMON_MINTS_RAY;
                       parsed_amount := Some 0%Z;
                       account_decimals := Some 6%Z;
                       account_uiAmount := None |}];
     jupiter_order := fun _ _ => Normal sample_order;
     jupiter_execute := fun _ _ _ =>
       Normal {| execute_error := None;
                 execute_signature := Some "sig"%string |};
     sign_transaction := fun _ transaction =>
       match transaction with
       | Some tx => Normal ("signed:" ++ tx)%string
       | None => Abrupt TypeError
       end;
     parseFloat := fun text =>
       match text with
       | Some "10000000"%string => Some 10000000%Q
       | Some "100000000"%string => Some 100000000%Q
       | Some "0.01"%string => Some (1 # 100)%Q
       | Some "0"%string => Some 0%Q
       | _ => None
       end;
     floor_text := fun _ _ _ => "10000000"%string |}.


Definition sample_config : PluginConfig :=
  {| rpcUrl := "https://api.mainnet-beta.solana.com";
     walletPath := "/home/user/.openclaw/workspace/solana-wallet.json";
     autoCreateWallet := false |}.

(** No file, no key generated, no call made. *)
Definition empty_world : World := {| files := []; generated := 0; calls := [] |}.

(** A world with a wallet file, and one with a file that is no wallet. *)
Definition world_with_wallet : World :=
  {| files := [(walletPath sample_config, "key*"%string)];
     generated := 1; calls := [] |}.

Definition world_with_garbage : World :=
  {| files := [(walletPath sample_config, "not a key"%string)];
     generated := 0; calls := [] |}.

(** * Properties *)

Local Open Scope float_scope.

(** ** Numbers: the order of binary64 values *)

Lemma SFcompare_antisym (a b : spec_float) :
  SFcompare b a = option_map CompOpp (SFcompare a b).
Proof.
  destruct a as [sa|sa| |sa ma ea], b as [sb|sb| |sb mb eb]; simpl;
    try reflexivity;
    try (destruct sa; reflexivity); try (destruct sb; reflexivity);
    try (destruct sa, sb; reflexivity).
  destruct sa, sb; simpl; try reflexivity;
    rewrite (Z.compare_antisym ea eb);
    destruct (ea ?= eb)%Z eqn:E; simpl; try reflexivity;
    fold (Pos.compare mb ma); fold (Pos.compare ma mb);
    rewrite (Pos.compare_antisym ma mb);
    destruct (ma ?= mb)%positive; reflexivity.
Qed.

Lemma SFcompare_trans (a b c : spec_float) :
  SFleb a b = true -> SFleb b c = true ->
  SFleb a c = true /\
  (SFltb a b = true \/ SFltb b c = true -> SFltb a c = true).
Proof.
  unfold SFleb, SFltb.
  destruct a as [sa|sa| |sa ma ea], b as [sb|sb| |sb mb eb],
           c as [sc|sc| |sc mc ec]; simpl;
    try discriminate;
    repeat match goal with s : bool |- _ => destruct s end; simpl;
    try discriminate; try tauto; try (intuition discriminate).
  all: fold (Pos.compare ma mb); fold (Pos.compare mb mc);
    fold (Pos.compare ma mc).
  all: destruct (Z.compare_spec ea eb), (Z.compare_spec eb ec),
         (Z.compare_spec ea ec); try lia; simpl;
       try discriminate; try tauto; try (intuition discriminate).
  all: destruct (Pos.compare_spec ma mb), (Pos.compare_spec mb mc),
         (Pos.compare_spec ma mc); try lia; simpl;
       try discriminate; try tauto; try (intuition discriminate).
Qed.

Lemma SFcompare_refl (a b : spec_float) :
  SFcompare a b <> None -> SFcompare a a = Some Eq /\ SFcompare b b = Some Eq.
Proof.
  assert (Hrefl : forall x, x <> S754_nan -> SFcompare x x = Some Eq).
  { intros [s|s| |s m e] Hx; simpl; try reflexivity; try congruence.
    - now destruct s.
    - rewrite Z.compare_refl. fold (Pos.compare m m).
      rewrite Pos.compare_refl. now destruct s. }
  intro H. split; apply Hrefl; intros ->; apply H.
  - reflexivity.
  - now destruct a.
Qed.

(** [a <= b] and [b <= c] give [a <= c]; the conclusion is strict when one
    of the two is. *)
Lemma Js_le_trans (a b c : float) :
  (a <=? b) = true -> (b <=? c) = true -> (a <=? c) = true.
Proof.
  rewrite !leb_spec. intros H1 H2.
  now destruct (SFcompare_trans _ _ _ H1 H2).
Qed.

Lemma Js_lt_le (a b : float) : Js.lt a b = true -> (a <=? b) = true.
Proof.
  unfold Js.lt. rewrite ltb_spec, leb_spec. unfold SFltb, SFleb.
  now destruct (SFcompare _ _) as [[]|].
Qed.

Lemma Js_lt_le_trans (a b c : float) :
  Js.lt a b = true -> (b <=? c) = true -> Js.lt a c = true.
Proof.
  intros H1 H2. pose proof (Js_lt_le _ _ H1) as H1'.
  unfold Js.lt in *. rewrite ltb_spec in *. rewrite leb_spec in *.
  destruct (SFcompare_trans _ _ _ H1' H2) as [_ H]. auto.
Qed.

Lemma Js_le_lt_trans (a b c : float) :
  (a <=? b) = true -> Js.lt b c = true -> Js.lt a c = true.
Proof.
  intros H1 H2. pose proof (Js_lt_le _ _ H2) as H2'.
  unfold Js.lt in *. rewrite ltb_spec in *. rewrite leb_spec in *.
  destruct (SFcompare_trans _ _ _ H1 H2') as [_ H]. auto.
Qed.

Lemma Js_lt_trans (a b c : float) :
  Js.lt a b = true -> Js.lt b c = true -> Js.lt a c = true.
Proof.
  intros H1 H2. eapply Js_lt_le_trans; [exact H1 | now apply Js_lt_le].
Qed.

(** [a <= b] excludes [b < a]. *)
Lemma Js_le_not_lt (a b : float) : (a <=? b) = true -> Js.lt b a = false.
Proof.
  unfold Js.lt. rewrite ltb_spec, leb_spec. unfold SFltb, SFleb.
  rewrite (SFcompare_antisym (Prim2SF a) (Prim2SF b)).
  now destruct (SFcompare _ _) as [[]|].
Qed.

Lemma Js_lt_not_le (a b : float) : Js.lt a b = true -> (b <=? a) = false.
Proof.
  unfold Js.lt. rewrite ltb_spec, leb_spec. unfold SFltb, SFleb.
  rewrite (SFcompare_antisym (Prim2SF a) (Prim2SF b)).
  now destruct (SFcompare _ _) as [[]|].
Qed.

(** [a < b] excludes [a == b], in both orders. *)
Lemma Js_lt_not_eq (a b : float) :
  Js.lt a b = true -> (a =? b) = false /\ (b =? a) = false.
Proof.
  unfold Js.lt. rewrite ltb_spec, !eqb_spec. unfold SFltb, SFeqb.
  rewrite (SFcompare_antisym (Prim2SF a) (Prim2SF b)).
  now destruct (SFcompare _ _) as [[]|].
Qed.

(** What compares is a number: neither side is NaN. *)
Lemma Js_le_numbers (a b : float) :
  (a <=? b) = true -> is_nan a = false /\ is_nan b = false.
Proof.
  unfold is_nan. rewrite leb_spec, !eqb_spec. unfold SFleb, SFeqb. intro H.
  destruct (SFcompare_refl (Prim2SF a) (Prim2SF b)) as [Ha Hb].
  - intro E. now rewrite E in H.
  - now rewrite Ha, Hb.
Qed.

Lemma Js_lt_numbers (a b : float) :
  Js.lt a b = true -> is_nan a = false /\ is_nan b = false.
Proof. intro H. now apply Js_le_numbers, Js_lt_le. Qed.

(** A number that is neither below nor above another equals it. *)
Lemma Js_not_lt_eq (a b : float) :
  is_nan a = false -> is_nan b = false ->
  Js.lt a b = false -> Js.lt b a = false -> (a =? b) = true.
Proof.
  unfold is_nan, Js.lt. rewrite !ltb_spec, !eqb_spec. unfold SFltb, SFeqb.
  rewrite (SFcompare_antisym (Prim2SF a) (Prim2SF b)).
  intros Ha Hb.
  assert (SFcompare (Prim2SF a) (Prim2SF b) <> None).
  { destruct (Prim2SF a), (Prim2SF b); simpl in *; congruence. }
  now destruct (SFcompare (Prim2SF a) (Prim2SF b)) as [[]|].
Qed.

(** [x || d] is never NaN when [d] is not. *)
Lemma or_num_number (x : option float) (d : float) :
  is_nan d = false -> is_nan (Js.or_num x d) = false.
Proof.
  intro Hd. unfold Js.or_num, Js.falsy. destruct x as [q|]; [|exact Hd].
  destruct (q =? 0); simpl; [exact Hd|].
  now destruct (is_nan q) eqn:E.
Qed.

(** Equal numbers are at most one another. *)
Lemma Js_eq_le (a b : float) :
  (a =? b) = true -> (a <=? b) = true /\ (b <=? a) = true.
Proof.
  rewrite eqb_spec, !leb_spec. unfold SFeqb, SFleb.
  rewrite (SFcompare_antisym (Prim2SF a) (Prim2SF b)).
  now destruct (SFcompare _ _) as [[]|].
Qed.

(** Of two numbers, the first is not below the second when the second is
    at most the first. *)
Lemma Js_not_lt_le (a b : float) :
  is_nan a = false -> is_nan b = false -> Js.lt a b = false ->
  (b <=? a) = true.
Proof.
  unfold is_nan, Js.lt. rewrite ltb_spec, leb_spec, !eqb_spec.
  unfold SFltb, SFleb, SFeqb.
  rewrite (SFcompare_antisym (Prim2SF a) (Prim2SF b)).
  intros Ha Hb.
  assert (SFcompare (Prim2SF a) (Prim2SF b) <> None).
  { destruct (Prim2SF a), (Prim2SF b); simpl in *; congruence. }
  now destruct (SFcompare (Prim2SF a) (Prim2SF b)) as [[]|].
Qed.

(** ** Numbers: what rounding returns *)

(** Rounding a mantissa that is not negative never returns NaN, and
    returns a value of the sign it was given. *)
Lemma iter_pos_invariant {A} (f : A -> A) (P : A -> Prop) :
  (forall x, P x -> P (f x)) -> forall n x, P x -> P (iter_pos f n x).
Proof.
  intro Hf. induction n as [n IH|n IH|]; intros x Hx; simpl; auto.
Qed.

Lemma shr_1_nonneg (r : shr_record) : (0 <= shr_m r)%Z -> (0 <= shr_m (shr_1 r))%Z.
Proof.
  destruct r as [[|[p|p|]|p] r s]; simpl; intro H; try lia.
Qed.

Lemma shr_fexp_nonneg prec emax (m e : Z) (l : location) :
  (0 <= m)%Z -> (0 <= shr_m (fst (shr_fexp prec emax m e l)))%Z.
Proof.
  intro H. unfold shr_fexp, shr.
  assert (H0 : (0 <= shr_m (shr_record_of_loc m l))%Z).
  { destruct l as [|[]]; exact H. }
  destruct (fexp prec emax (Zdigits2 m + e) - e)%Z; simpl; auto.
  now apply iter_pos_invariant; [apply shr_1_nonneg|].
Qed.

Lemma round_nearest_even_nonneg (m : Z) (l : location) :
  (0 <= m)%Z -> (0 <= round_nearest_even m l)%Z.
Proof.
  intro H. unfold round_nearest_even.
  destruct l as [|[]]; try lia. destruct (Z.even m); lia.
Qed.

Lemma binary_round_aux_signed prec emax (s : bool) (m e : Z) (l : location) :
  (0 <= m)%Z -> signed s (binary_round_aux prec emax s m e l).
Proof.
  intro H. unfold binary_round_aux.
  pose proof (shr_fexp_nonneg prec emax m e l H) as H1.
  destruct (shr_fexp prec emax m e l) as [mrs' e']. simpl in H1.
  pose proof (shr_fexp_nonneg prec emax _ e' loc_Exact
                (round_nearest_even_nonneg _ (loc_of_shr_record mrs') H1)) as H2.
  destruct (shr_fexp prec emax _ e' loc_Exact) as [mrs'' e'']. simpl in H2.
  unfold signed. destruct (shr_m mrs'') as [|p|p]; [auto | | lia].
  destruct (e'' <=? emax - prec)%Z; eauto.
Qed.

Lemma SFcompare_same (a : spec_float) :
  a <> S754_nan -> SFcompare a a = Some Eq.
Proof.
  destruct a as [s|s| |s m e]; intro H; simpl; try reflexivity;
    try congruence; try (now destruct s).
  rewrite Z.compare_refl. fold (Pos.compare m m).
  rewrite Pos.compare_refl. now destruct s.
Qed.

Lemma is_nan_spec (x : float) : is_nan x = true <-> Prim2SF x = S754_nan.
Proof.
  unfold is_nan. rewrite eqb_spec. unfold SFeqb. split.
  - intro H. destruct (Prim2SF x) as [s|s| |s m e] eqn:E; try reflexivity;
      rewrite SFcompare_same in H by discriminate; discriminate.
  - intros ->. reflexivity.
Qed.

Lemma nonneg_number (x : float) : nonneg x -> is_nan x = false.
Proof.
  unfold nonneg. intro H. destruct (is_nan x) eqn:E; [|reflexivity].
  apply is_nan_spec in E. now rewrite E in H.
Qed.

Lemma signed_false_nonneg (x : spec_float) :
  signed false x ->
  match x with
  | S754_zero _ | S754_infinity false | S754_finite false _ _ => True
  | _ => False
  end.
Proof. intros [->|[->|[m [e ->]]]]; exact I. Qed.

Lemma signed_number (s : bool) (x : spec_float) : signed s x -> x <> S754_nan.
Proof. intros [->|[->|[m [e ->]]]]; discriminate. Qed.

Lemma binary_round_signed prec emax (s : bool) (m : positive) (e : Z) :
  signed s (binary_round prec emax s m e).
Proof.
  unfold binary_round. destruct (shl_align _ _ _) as [mz ez].
  now apply binary_round_aux_signed.
Qed.

Lemma binary_normalize_number prec emax (m e : Z) (szero : bool) :
  binary_normalize prec emax m e szero <> S754_nan.
Proof.
  destruct m as [|p|p]; simpl; [discriminate | |];
    eapply signed_number, binary_round_signed.
Qed.

Lemma binary_normalize_nonneg prec emax (m e : Z) :
  (0 <= m)%Z ->
  match binary_normalize prec emax m e false with
  | S754_zero _ | S754_infinity false | S754_finite false _ _ => True
  | _ => False
  end.
Proof.
  destruct m as [|p|p]; simpl; intro H; [exact I | | lia].
  apply signed_false_nonneg, binary_round_signed.
Qed.

(** A sum of two numbers that are zero, positive or [+Infinity] is one. *)
Lemma nonneg_add (x y : float) : nonneg x -> nonneg y -> nonneg (x + y).
Proof.
  unfold nonneg. rewrite add_spec. unfold SF64add, SFadd.
  destruct (Prim2SF x) as [sx|[|]| |[|] mx ex]; try contradiction;
    destruct (Prim2SF y) as [sy|[|]| |[|] my ey]; try contradiction;
    intros _ _; try exact I; try (now destruct sx, sy).
  apply binary_normalize_nonneg. simpl. lia.
Qed.

(** A number less a number that is not infinite is a number. *)
Lemma number_sub (x c : float) :
  is_nan x = false -> finite_number c -> is_nan (x - c) = false.
Proof.
  unfold finite_number. intros Hx Hc.
  destruct (is_nan (x - c)) eqn:E; [|reflexivity].
  apply is_nan_spec in E. rewrite sub_spec in E.
  assert (Hx' : Prim2SF x <> S754_nan).
  { intro N. apply is_nan_spec in N. congruence. }
  unfold SF64sub, SFsub in E.
  destruct (Prim2SF x) as [sx|sx| |sx mx ex]; try congruence;
    destruct (Prim2SF c) as [sc|sc| |sc mc ec]; try contradiction;
    try discriminate; try (destruct sx, sc; discriminate).
  now apply binary_normalize_number in E.
Qed.

(** A positive number below a bound, times a constant that is zero or
    positive and not infinite. *)
Lemma nonneg_mul (q hi c : float) :
  Js.lt 0 q = true -> Js.lt q hi = true -> nonneg c -> finite_number c ->
  nonneg (q * c).
Proof.
  unfold Js.lt, nonneg, finite_number. rewrite !ltb_spec, mul_spec.
  unfold SFltb, SF64mul, SFmul.
  change (Prim2SF 0) with (S754_zero false).
  destruct (Prim2SF q) as [sq|[|]| |[|] mq eq]; simpl; try discriminate;
    intros _ Hhi Hc Hfin.
  - now destruct (Prim2SF hi) as [s|[|]| |s m e].
  - destruct (Prim2SF c) as [sc|[|]| |[|] mc ec]; try contradiction;
      try exact I.
    apply signed_false_nonneg, binary_round_aux_signed. lia.
Qed.

(** ** Numbers: the sign of a difference *)

Lemma digits2_pos_size (m : positive) : digits2_pos m = Pos.size m.
Proof. induction m; simpl; congruence. Qed.

Lemma digits2_pos_bounds (m : positive) :
  (2 ^ (Z.pos (digits2_pos m) - 1) <= Z.pos m < 2 ^ Z.pos (digits2_pos m))%Z.
Proof.
  rewrite digits2_pos_size. split.
  - pose proof (Pos.size_le m) as H.
    assert (H' : (2 ^ Z.pos (Pos.size m) <= 2 * Z.pos m)%Z).
    { change (2 * Z.pos m)%Z with (Z.pos m~0).
      rewrite <- Pos2Z.inj_pow. now apply Pos2Z.pos_le_pos. }
    replace (Z.pos (Pos.size m)) with (Z.succ (Z.pos (Pos.size m) - 1))%Z in H'
      by lia.
    rewrite Z.pow_succ_r in H' by lia. lia.
  - pose proof (Pos.size_gt m) as H.
    rewrite <- Pos2Z.inj_pow. now apply Pos2Z.pos_lt_pos.
Qed.

Lemma canonical_bounds (m : positive) (e : Z) :
  canonical m e ->
  (-1074 <= e)%Z /\ (Z.pos (digits2_pos m) <= 53)%Z /\
  (-1074 < e -> Z.pos (digits2_pos m) = 53)%Z.
Proof.
  unfold canonical, bounded, canonical_mantissa, fexp, SpecFloat.emin, prec, emax.
  intro H. apply andb_true_iff in H. destruct H as [H _].
  apply Z.eqb_eq in H. lia.
Qed.

Lemma iter_xO_value (m d : positive) :
  Z.pos (Pos.iter xO m d) = (Z.pos m * 2 ^ Z.pos d)%Z.
Proof.
  induction d using Pos.peano_ind.
  - simpl. lia.
  - rewrite Pos.iter_succ, Pos2Z.inj_succ, Z.pow_succ_r by lia.
    rewrite Pos2Z.inj_xO, IHd. lia.
Qed.

Lemma shl_align_value (m : positive) (e ez : Z) :
  (ez <= e)%Z ->
  Z.pos (fst (shl_align m e ez)) = (Z.pos m * 2 ^ (e - ez))%Z.
Proof.
  intro H. unfold shl_align.
  destruct (ez - e)%Z as [|d|d] eqn:E; try lia.
  - assert (e - ez = 0)%Z as -> by lia. simpl fst. lia.
  - assert (e - ez = Z.pos d)%Z as -> by lia. apply iter_xO_value.
Qed.

(** Canonical mantissas compare by exponent first. *)
Lemma aligned_lt (mx my : positive) (ex ey : Z) :
  canonical mx ex -> canonical my ey -> (ex < ey)%Z ->
  (Z.pos mx < Z.pos my * 2 ^ (ey - ex))%Z.
Proof.
  intros Hx Hy Hlt.
  destruct (canonical_bounds _ _ Hx) as [Hmin [Hdx _]].
  destruct (canonical_bounds _ _ Hy) as [_ [_ Hdy]].
  pose proof (digits2_pos_bounds mx) as [_ Bx].
  pose proof (digits2_pos_bounds my) as [By _].
  rewrite Hdy in By by lia.
  assert (Z.pos mx < 2 ^ 53)%Z.
  { eapply Z.lt_le_trans; [exact Bx|]. apply Z.pow_le_mono_r; lia. }
  assert (2 ^ 1 <= 2 ^ (ey - ex))%Z by (apply Z.pow_le_mono_r; lia).
  change (2 ^ (53 - 1))%Z with 4503599627370496%Z in By.
  change (2 ^ 53)%Z with 9007199254740992%Z in *.
  change (2 ^ 1)%Z with 2%Z in *. nia.
Qed.

Lemma aligned_compare (mx my : positive) (ex ey : Z) :
  canonical mx ex -> canonical my ey ->
  (Z.pos (fst (shl_align mx ex (Z.min ex ey)))
   ?= Z.pos (fst (shl_align my ey (Z.min ex ey))))%Z
  = match (ex ?= ey)%Z with
    | Lt => Lt
    | Gt => Gt
    | Eq => (mx ?= my)%positive
    end.
Proof.
  intros Hx Hy. rewrite !shl_align_value by lia.
  destruct (Z.compare_spec ex ey) as [E|E|E].
  - subst ey. rewrite Z.min_id, Z.sub_diag, !Z.mul_1_r. reflexivity.
  - rewrite Z.min_l, Z.sub_diag, Z.mul_1_r by lia.
    apply Z.compare_lt_iff. now apply aligned_lt.
  - rewrite Z.min_r, Z.sub_diag, Z.mul_1_r by lia.
    apply Z.compare_gt_iff. now apply aligned_lt.
Qed.

Lemma shr_1_half (r : shr_record) :
  (0 <= shr_m r)%Z -> shr_m (shr_1 r) = (shr_m r / 2)%Z.
Proof.
  destruct r as [[|[p|p|]|p] r s]; simpl shr_m; intro H; try lia.
  - reflexivity.
  - change (Z.pos p~1) with (2 * Z.pos p + 1)%Z.
    apply Z.div_unique with (r := 1%Z); lia.
  - change (Z.pos p~0) with (2 * Z.pos p)%Z.
    apply Z.div_unique with (r := 0%Z); lia.
  - reflexivity.
Qed.

Lemma iter_shr_1 (n : positive) (r : shr_record) :
  (0 <= shr_m r)%Z ->
  shr_m (iter_pos shr_1 n r) = (shr_m r / 2 ^ Z.pos n)%Z.
Proof.
  revert r. induction n as [n IH|n IH|]; intros r H; simpl iter_pos.
  - assert (H1 : (0 <= shr_m (shr_1 r))%Z) by now apply shr_1_nonneg.
    assert (H2 : (0 <= shr_m (iter_pos shr_1 n (shr_1 r)))%Z).
    { apply (iter_pos_invariant shr_1 (fun r => 0 <= shr_m r)%Z);
        auto using shr_1_nonneg. }
    rewrite IH, IH, shr_1_half by assumption.
    rewrite !Z.div_div by lia.
    f_equal. replace (Z.pos n~1) with (Z.pos n + Z.pos n + 1)%Z by lia.
    rewrite !Z.pow_add_r by lia. change (2 ^ 1)%Z with 2%Z. ring.
  - assert (H2 : (0 <= shr_m (iter_pos shr_1 n r))%Z).
    { apply (iter_pos_invariant shr_1 (fun r => 0 <= shr_m r)%Z);
        auto using shr_1_nonneg. }
    rewrite IH, IH by assumption.
    rewrite !Z.div_div by lia.
    f_equal. replace (Z.pos n~0) with (Z.pos n + Z.pos n)%Z by lia.
    rewrite Z.pow_add_r by lia. ring.
  - rewrite shr_1_half by assumption. reflexivity.
Qed.

Lemma shr_record_of_loc_m (m : Z) (l : location) :
  shr_m (shr_record_of_loc m l) = m.
Proof. now destruct l as [|[]]. Qed.

(** Above the least exponent, what is cut off a positive mantissa leaves a
    positive mantissa. *)
Lemma shr_fexp_positive (m e : Z) (l : location) :
  (0 < m)%Z -> (-1074 <= e)%Z ->
  (0 < shr_m (fst (shr_fexp prec emax m e l)))%Z /\
  (-1074 <= snd (shr_fexp prec emax m e l))%Z.
Proof.
  intros Hm He. unfold shr_fexp, shr.
  destruct m as [|p|p]; try lia. simpl Zdigits2.
  pose proof (digits2_pos_bounds p) as [Hlow _].
  unfold fexp, SpecFloat.emin, prec, emax.
  destruct (Z.max (Z.pos (digits2_pos p) + e - 53) (3 - 1024 - 53) - e)%Z
    as [|k|k] eqn:E; simpl fst; simpl snd;
    try (rewrite shr_record_of_loc_m; lia).
  split; [|lia].
  rewrite iter_shr_1 by (rewrite shr_record_of_loc_m; lia).
  rewrite shr_record_of_loc_m.
  apply Z.div_str_pos. split; [apply Z.pow_pos_nonneg; lia|].
  eapply Z.le_trans; [|exact Hlow]. apply Z.pow_le_mono_r; lia.
Qed.

Lemma binary_round_aux_nonzero (s : bool) (m e : Z) (l : location) :
  (0 < m)%Z -> (-1074 <= e)%Z ->
  binary_round_aux prec emax s m e l = S754_infinity s \/
  exists m' e', binary_round_aux prec emax s m e l = S754_finite s m' e'.
Proof.
  intros Hm He. unfold binary_round_aux.
  destruct (shr_fexp_positive m e l Hm He) as [H1 H1'].
  destruct (shr_fexp prec emax m e l) as [mrs' e']. simpl in H1, H1'.
  assert (Hr : (0 < round_nearest_even (shr_m mrs') (loc_of_shr_record mrs'))%Z).
  { unfold round_nearest_even.
    destruct (loc_of_shr_record mrs') as [|[]]; try lia.
    destruct (Z.even (shr_m mrs')); lia. }
  destruct (shr_fexp_positive _ e' loc_Exact Hr H1') as [H2 _].
  destruct (shr_fexp prec emax _ e' loc_Exact) as [mrs'' e'']. simpl in H2.
  destruct (shr_m mrs'') as [|p|p]; try lia.
  destruct (e'' <=? emax - prec)%Z; eauto.
Qed.

Lemma binary_round_nonzero (s : bool) (m : positive) (e : Z) :
  (-1074 <= e)%Z ->
  binary_round prec emax s m e = S754_infinity s \/
  exists m' e', binary_round prec emax s m e = S754_finite s m' e'.
Proof.
  intro He. unfold binary_round.
  destruct (shl_align m e _) as [mz ez] eqn:E.
  apply binary_round_aux_nonzero; [lia|].
  unfold shl_align in E.
  destruct (fexp prec emax (Z.pos (digits2_pos m) + e) - e)%Z eqn:F;
    injection E as <- <-; try lia.
  unfold fexp, SpecFloat.emin, prec, emax. lia.
Qed.

Lemma signed_true_not_positive (x : spec_float) :
  signed true x -> SFltb (S754_zero false) x = false.
Proof. intros [->|[->|[m [e ->]]]]; reflexivity. Qed.

Lemma normalize_sign (d e : Z) :
  (-1074 <= e)%Z ->
  SFltb (S754_zero false) (binary_normalize prec emax d e false)
  = (0 <? d)%Z.
Proof.
  intro He. destruct d as [|p|p]; simpl binary_normalize.
  - reflexivity.
  - destruct (binary_round_nonzero false p e He) as [->|[m' [e' ->]]];
      reflexivity.
  - apply signed_true_not_positive, binary_round_signed.
Qed.

(** A difference that is a number is positive exactly when its first
    operand is the larger. *)
Lemma SFsub_sign (x y : spec_float) :
  valid_binary x = true -> valid_binary y = true ->
  SF64sub y x <> S754_nan ->
  SFltb (S754_zero false) (SF64sub y x) = SFltb x y.
Proof.
  unfold SF64sub, SFsub.
  destruct y as [sy|sy| |sy my ey], x as [sx|sx| |sx mx ex];
    unfold valid_binary, SpecFloat.valid_binary;
    intros Vx Vy Hnum; try congruence;
    try (destruct sy, sx; try reflexivity; congruence);
    try (destruct sy; reflexivity); try (destruct sx; reflexivity).
  destruct (canonical_bounds _ _ Vx) as [Hex _].
  destruct (canonical_bounds _ _ Vy) as [Hey _].
  rewrite normalize_sign by lia.
  pose proof (aligned_compare mx my ex ey Vx Vy) as Hcmp.
  rewrite (Z.min_comm ex ey) in Hcmp.
  unfold SFltb, SFcompare. fold (Pos.compare mx my).
  set (ax := Z.pos (fst (shl_align mx ex (Z.min ey ex)))) in *.
  set (ay := Z.pos (fst (shl_align my ey (Z.min ey ex)))) in *.
  assert (Hax : (0 < ax)%Z) by (unfold ax; lia).
  assert (Hay : (0 < ay)%Z) by (unfold ay; lia).
  clear Hnum. clearbody ax ay. revert Hcmp.
  destruct sy, sx; unfold cond_Zopp;
    try (intros _; first [apply Z.ltb_ge; lia | apply Z.ltb_lt; lia]);
    destruct (ex ?= ey)%Z; destruct (mx ?= my)%positive; simpl; intro Hcmp;
    rewrite ?Z.compare_eq_iff, ?Z.compare_lt_iff, ?Z.compare_gt_iff in Hcmp;
    first [apply Z.ltb_ge; lia | apply Z.ltb_lt; lia].
Qed.

Lemma Js_difference_sign (a b : float) :
  is_nan (b - a) = false -> Js.gt (b - a) 0 = Js.lt a b.
Proof.
  intro Hnum. unfold Js.gt, Js.lt. rewrite !ltb_spec, sub_spec.
  change (Prim2SF 0) with (S754_zero false).
  apply SFsub_sign; try apply Prim2SF_valid.
  rewrite <- sub_spec. intro N. apply is_nan_spec in N. congruence.
Qed.


(** The operands of a difference that is a number are numbers. *)
Lemma difference_operands (a b : float) :
  is_nan (b - a) = false -> is_nan a = false /\ is_nan b = false.
Proof.
  intro H.
  assert (Hn : Prim2SF (b - a) <> S754_nan).
  { intro N. apply is_nan_spec in N. congruence. }
  rewrite sub_spec in Hn. unfold SF64sub, SFsub in Hn.
  split.
  - destruct (is_nan a) eqn:E; [|reflexivity]. apply is_nan_spec in E.
    rewrite E in Hn. now destruct (Prim2SF b).
  - destruct (is_nan b) eqn:E; [|reflexivity]. apply is_nan_spec in E.
    now rewrite E in Hn.
Qed.

(** What is above 0 is positive or [+Infinity]. *)
Lemma positive_nonneg (q : float) : Js.lt 0 q = true -> nonneg q.
Proof.
  unfold Js.lt, nonneg. rewrite ltb_spec. unfold SFltb.
  change (Prim2SF 0) with (S754_zero false).
  now destruct (Prim2SF q) as [s|[|]| |[|] m e].
Qed.

(** ** Arrays: slices *)

Section Slices.
Context {A : Type}.

Lemma Array_slice0_prefix (arr : list A) (n : Z) :
  exists rest, arr = Array_slice0 arr n ++ rest.
Proof.
  unfold Array_slice0. eexists. symmetry. apply firstn_skipn.
Qed.

Lemma Array_slice0_length (arr : list A) (n : Z) :
  (0 <= n)%Z -> (Z.of_nat (List.length (Array_slice0 arr n)) <= n)%Z.
Proof.
  intro Hn. unfold Array_slice0.
  destruct (n <? 0)%Z eqn:E; [apply Z.ltb_lt in E; lia|].
  pose proof (firstn_le_length
                (Z.to_nat (Z.min n (Z.of_nat (List.length arr)))) arr).
  lia.
Qed.

Lemma Array_slice0_all (arr : list A) (n : Z) :
  (Z.of_nat (List.length arr) <= n)%Z -> Array_slice0 arr n = arr.
Proof.
  intro Hn. unfold Array_slice0.
  destruct (n <? 0)%Z eqn:E; [apply Z.ltb_lt in E; lia|].
  apply firstn_all2. lia.
Qed.

Lemma Array_slice0_In (arr : list A) (n : Z) (x : A) :
  In x (Array_slice0 arr n) -> In x arr.
Proof.
  destruct (Array_slice0_prefix arr n) as [rest E]. intro H.
  rewrite E. apply in_or_app. now left.
Qed.

Lemma StronglySorted_app_l (R : A -> A -> Prop) (l1 l2 : list A) :
  StronglySorted R (l1 ++ l2) -> StronglySorted R l1.
Proof.
  induction l1 as [|x l1 IH]; simpl; intro H.
  - constructor.
  - inversion H as [|? ? Hs Hf]; subst. constructor.
    + now apply IH.
    + apply Forall_app in Hf. tauto.
Qed.

Lemma Array_slice0_sorted (R : A -> A -> Prop) (arr : list A) (n : Z) :
  StronglySorted R arr -> StronglySorted R (Array_slice0 arr n).
Proof.
  destruct (Array_slice0_prefix arr n) as [rest E]. intro H.
  rewrite E in H. now apply StronglySorted_app_l in H.
Qed.

Lemma Array_slice0_NoDup {B} (f : A -> B) (arr : list A) (n : Z) :
  NoDup (map f arr) -> NoDup (map f (Array_slice0 arr n)).
Proof.
  destruct (Array_slice0_prefix arr n) as [rest E]. intro H.
  rewrite E, map_app in H. now apply NoDup_app_remove_r in H.
Qed.

End Slices.

Lemma Array_slice0_length_exact {A} (arr : list A) (n : Z) :
  Z.of_nat (List.length (Array_slice0 arr n)) = kept_of (List.length arr) n.
Proof.
  unfold Array_slice0, kept_of. rewrite length_firstn.
  destruct (n <? 0)%Z eqn:E; [apply Z.ltb_lt in E | apply Z.ltb_ge in E]; lia.
Qed.

(** ** Arrays: sort *)

Section Sort.
Context {A : Type} (js : Js.Engine) (compareFn : A -> A -> float).

Lemma sort_insert_perm (x : A) (l : list A) :
  Permutation (sort_insert compareFn x l) (x :: l).
Proof.
  induction l as [|y l IH]; simpl.
  - reflexivity.
  - destruct (Js.gt (compareFn x y) 0).
    + etransitivity; [apply perm_skip, IH | apply perm_swap].
    + reflexivity.
Qed.

Lemma move_to_front_perm (i : nat) (l : list A) :
  Permutation (move_to_front i l) l.
Proof.
  unfold move_to_front. revert i.
  induction l as [|a l IH]; intros [|i]; simpl; try reflexivity.
  specialize (IH i). destruct (nth_error l i) as [x|]; [|reflexivity].
  etransitivity; [apply perm_swap | apply perm_skip, IH].
Qed.

Lemma rearrange_perm (moves : list nat) (l : list A) :
  Permutation (rearrange moves l) l.
Proof.
  unfold rearrange. revert l. induction moves as [|i moves IH]; intro l; simpl.
  - reflexivity.
  - etransitivity; [apply IH | apply move_to_front_perm].
Qed.

(** Whatever the comparator and the engine do, [sort] rearranges. *)
Lemma Array_sort_perm (l : list A) : Permutation (Array_sort js compareFn l) l.
Proof.
  unfold Array_sort. destruct (consistent compareFn l).
  - induction l as [|x l IH]; simpl.
    + constructor.
    + etransitivity; [apply sort_insert_perm | now apply perm_skip].
  - apply rearrange_perm.
Qed.

End Sort.

(** A list that descends by score relates every two of its members, one
    way or the other. *)
Lemma StronglySorted_related {A} (R : A -> A -> Prop) (l : list A) (x y : A) :
  StronglySorted R l -> In x l -> In y l -> x = y \/ R x y \/ R y x.
Proof.
  induction 1 as [|a l Hs IH Hf]; simpl; intros Hx Hy; [contradiction|].
  rewrite Forall_forall in Hf.
  destruct Hx as [->|Hx], Hy as [->|Hy]; auto.
Qed.

(** No arrangement of candidates descends by score when one of them has
    the score NaN and there is another: NaN is neither at least nor at most
    any number. *)
Lemma NaN_score_unsorted (l : list Candidate) (x y : Candidate) :
  In x l -> In y l -> x <> y -> is_nan (score x) = true ->
  ~ StronglySorted score_ge l.
Proof.
  intros Hx Hy Hne Hnan Hs.
  destruct (StronglySorted_related _ _ _ _ Hs Hx Hy) as [E|[H|H]];
    [contradiction| |]; unfold score_ge in H;
    apply Js_le_numbers in H; destruct H; congruence.
Qed.

(** ** Arrays: findIndex and the duplicate filter *)

Lemma Array_findIndex_hit {A} (p : A -> bool) (pre : list A) (x : A) rest :
  existsb p pre = false -> p x = true ->
  Array_findIndex p (pre ++ x :: rest) = Z.of_nat (List.length pre).
Proof.
  induction pre as [|a pre IH]; simpl; intros Hpre Hx.
  - now rewrite Hx.
  - apply orb_false_iff in Hpre. destruct Hpre as [Ha Hpre].
    rewrite Ha, (IH Hpre Hx).
    destruct (Z.of_nat (List.length pre) <? 0)%Z eqn:E.
    + apply Z.ltb_lt in E. lia.
    + lia.
Qed.

Lemma Array_findIndex_earlier {A} (p : A -> bool) (pre rest : list A) :
  existsb p pre = true ->
  (0 <= Array_findIndex p (pre ++ rest) < Z.of_nat (List.length pre))%Z.
Proof.
  induction pre as [|a pre IH]; simpl; intro H; [discriminate|].
  destruct (p a); [lia|]. simpl in H. specialize (IH H).
  destruct (Array_findIndex p (pre ++ rest) <? 0)%Z eqn:E.
  - apply Z.ltb_lt in E. lia.
  - lia.
Qed.

Lemma same_mint_refl (c : Candidate) : same_mint c c = true.
Proof. apply String.eqb_refl. Qed.

Lemma same_mint_eq (c o : Candidate) : same_mint c o = true <-> mint o = mint c.
Proof. apply String.eqb_eq. Qed.

Lemma filter_from_first_occurrences (self pre arr : list Candidate) :
  self = pre ++ arr ->
  filter_from
    (fun opp index => (index =? Array_findIndex (same_mint opp) self)%Z)
    (Z.of_nat (List.length pre)) arr
  = first_occurrences pre arr.
Proof.
  revert pre. induction arr as [|x rest IH]; intros pre Hself; simpl.
  - reflexivity.
  - assert (Hnext : (Z.of_nat (List.length pre) + 1)%Z
                    = Z.of_nat (List.length (pre ++ [x]))).
    { rewrite length_app. simpl. lia. }
    assert (Hself' : self = (pre ++ [x]) ++ rest).
    { rewrite <- app_assoc. exact Hself. }
    rewrite Hnext, (IH _ Hself').
    destruct (existsb (same_mint x) pre) eqn:E.
    + pose proof (Array_findIndex_earlier (same_mint x) pre (x :: rest) E) as H.
      rewrite <- Hself in H.
      destruct (Z.eqb_spec (Z.of_nat (List.length pre))
                           (Array_findIndex (same_mint x) self)); [lia|].
      reflexivity.
    + rewrite Hself at 1.
      rewrite (Array_findIndex_hit _ pre x rest E (same_mint_refl x)).
      now rewrite Z.eqb_refl.
Qed.

Lemma uniqueOpportunities_first_occurrences (arr : list Candidate) :
  uniqueOpportunities arr = first_occurrences [] arr.
Proof.
  unfold uniqueOpportunities, Array_filter.
  now apply (filter_from_first_occurrences arr []).
Qed.

Lemma first_occurrences_In (seen arr : list Candidate) (c : Candidate) :
  In c (first_occurrences seen arr) -> In c arr.
Proof.
  revert seen. induction arr as [|x rest IH]; simpl; intros seen H; [assumption|].
  destruct (existsb (same_mint x) seen).
  - right. eapply IH, H.
  - destruct H as [H|H]; [now left | right; eapply IH, H].
Qed.

Lemma first_occurrences_unseen (seen arr : list Candidate) (c : Candidate) :
  In c (first_occurrences seen arr) -> existsb (same_mint c) seen = false.
Proof.
  revert seen. induction arr as [|x rest IH]; simpl; intros seen H; [contradiction|].
  assert (Hrec : In c (first_occurrences (seen ++ [x]) rest) ->
                 existsb (same_mint c) seen = false).
  { intro Hin. apply IH in Hin. rewrite existsb_app in Hin.
    now apply orb_false_iff in Hin. }
  destruct (existsb (same_mint x) seen) eqn:E; [now apply Hrec|].
  destruct H as [H|H]; [now subst | now apply Hrec].
Qed.

Lemma first_occurrences_NoDup (seen arr : list Candidate) :
  NoDup (map mint (first_occurrences seen arr)).
Proof.
  revert seen. induction arr as [|x rest IH]; simpl; intro seen; [constructor|].
  destruct (existsb (same_mint x) seen); [apply IH|].
  simpl. constructor; [|apply IH].
  intro Hin. apply in_map_iff in Hin. destruct Hin as [c [Hm Hc]].
  apply first_occurrences_unseen in Hc.
  rewrite existsb_app in Hc. apply orb_false_iff in Hc. destruct Hc as [_ Hc].
  simpl in Hc. rewrite orb_false_r in Hc.
  assert (same_mint c x = true) by (apply same_mint_eq; congruence).
  congruence.
Qed.

Lemma find_skip_unseen {A} (p : A -> bool) (seen l : list A) :
  existsb p seen = false -> find p (seen ++ l) = find p l.
Proof.
  induction seen as [|a seen IH]; simpl; intro H; [reflexivity|].
  apply orb_false_iff in H. destruct H as [Ha H]. rewrite Ha. now apply IH.
Qed.

Lemma first_occurrences_find (seen arr : list Candidate) (c : Candidate) :
  In c (first_occurrences seen arr) ->
  find (same_mint c) (seen ++ arr) = Some c.
Proof.
  revert seen. induction arr as [|x rest IH]; simpl; intros seen H; [contradiction|].
  assert (Hrec : In c (first_occurrences (seen ++ [x]) rest) ->
                 find (same_mint c) (seen ++ x :: rest) = Some c).
  { intro Hin. apply IH in Hin. now rewrite <- app_assoc in Hin. }
  destruct (existsb (same_mint x) seen) eqn:E; [now apply Hrec|].
  destruct H as [H|H]; [|now apply Hrec]. subst x.
  rewrite (find_skip_unseen _ _ _ E). simpl. now rewrite same_mint_refl.
Qed.

Lemma first_occurrences_complete (seen arr : list Candidate) (c : Candidate) :
  In c arr -> existsb (same_mint c) seen = false ->
  In (mint c) (map mint (first_occurrences seen arr)).
Proof.
  revert seen. induction arr as [|x rest IH]; simpl; intros seen Hin Hc;
    [contradiction|].
  destruct (same_mint c x) eqn:Ex.
  - apply same_mint_eq in Ex.
    assert (Hx : existsb (same_mint x) seen = false).
    { unfold same_mint in *. now rewrite Ex. }
    rewrite Hx. left. exact Ex.
  - assert (Hrest : In c rest).
    { destruct Hin as [->|H]; [|exact H]. rewrite same_mint_refl in Ex.
      discriminate. }
    assert (Hseen : existsb (same_mint c) (seen ++ [x]) = false).
    { rewrite existsb_app, Hc. simpl. now rewrite Ex. }
    specialize (IH _ Hrest Hseen).
    destruct (existsb (same_mint x) seen); [exact IH | now right].
Qed.
(** ** Effects: what a block leaves in [opportunities] *)

Section Leaves.
Context {A B : Type}.
Implicit Types P Q R : list Candidate -> Prop.

Lemma leaves_ret P (a : A) : leaves P P (ret a).
Proof. intros st H. exact H. Qed.

Lemma leaves_deref P (x : option A) : leaves P P (deref x).
Proof. intros st H. destruct x; exact H. Qed.

Lemma leaves_fetch_json P (endpoint : nat -> string -> completion A) url :
  leaves P P (fetch_json endpoint url).
Proof. intros st H. exact H. Qed.

Lemma leaves_bind P Q R (m : Eff A) (k : A -> Eff B) :
  leaves P Q m -> (forall l, Q l -> R l) -> (forall a, leaves Q R (k a)) ->
  leaves P R (bind m k).
Proof.
  intros Hm HQR Hk st H. unfold bind. specialize (Hm st H).
  destruct (m st) as [[a|e] st']; simpl in *.
  - now apply Hk.
  - now apply HQR.
Qed.

Lemma leaves_try_catch P Q R (body : Eff A) (handler : exn -> Eff A) :
  leaves P Q body -> (forall l, Q l -> R l) ->
  (forall e, leaves Q R (handler e)) ->
  leaves P R (try_catch body handler).
Proof.
  intros Hb HQR Hh st H. unfold try_catch. specialize (Hb st H).
  destruct (body st) as [[a|e] st']; simpl in *.
  - now apply HQR.
  - now apply Hh.
Qed.

End Leaves.

Lemma leaves_push (P Q : list Candidate -> Prop) (c : Candidate) :
  (forall l, P l -> Q (l ++ [c])) -> leaves P Q (push c).
Proof. intros H st HP. simpl. now apply H. Qed.

Lemma leaves_for_of {A} (P : list Candidate -> Prop) (arr : list A) body :
  (forall x, leaves P P (body x)) -> leaves P P (for_of arr body).
Proof.
  intro Hbody. induction arr as [|x rest IH]; simpl.
  - apply leaves_ret.
  - apply leaves_bind with (Q := P); auto.
Qed.

Lemma leaves_filter_solana (P : list Candidate -> Prop) boostedData :
  leaves P P (filter_solana boostedData).
Proof.
  induction boostedData as [|t rest IH]; simpl.
  - apply leaves_ret.
  - apply leaves_bind with (Q := P); auto using leaves_deref.
    intro a. apply leaves_bind with (Q := P); auto.
    intro kept. apply leaves_ret.
Qed.

Lemma Forall_boosted_then_trending (l : list Candidate) :
  Forall from_boosted l -> boosted_then_trending l.
Proof.
  intro H. exists l, []. rewrite app_nil_r. auto.
Qed.

Lemma boosted_then_trending_push (l : list Candidate) (c : Candidate) :
  from_trending c -> boosted_then_trending l -> boosted_then_trending (l ++ [c]).
Proof.
  intros Hc [bs [ts [-> [Hb Ht]]]]. exists bs, (ts ++ [c]).
  rewrite app_assoc. repeat split; auto.
  apply Forall_app. auto.
Qed.

Lemma scanBoostedToken_leaves (net : Network) (token : BoostedToken) :
  leaves (Forall from_boosted) (Forall from_boosted) (scanBoostedToken net token).
Proof.
  unfold scanBoostedToken.
  apply leaves_try_catch with (Q := Forall from_boosted); auto.
  - apply leaves_bind with (Q := Forall from_boosted);
      auto using leaves_fetch_json.
    intro tokenData. destruct (pairs tokenData) as [[|first rest]|];
      try apply leaves_ret.
    apply leaves_bind with (Q := Forall from_boosted); auto using leaves_deref.
    intro pair. apply leaves_push. intros l Hl.
    apply Forall_app. split; [assumption|]. now repeat constructor.
  - intro e. apply leaves_ret.
Qed.

Lemma scanTrendingPool_leaves (js : Js.Engine) (pool : option Pool) :
  leaves boosted_then_trending boosted_then_trending (scanTrendingPool js pool).
Proof.
  unfold scanTrendingPool.
  apply leaves_bind with (Q := boosted_then_trending); auto using leaves_deref.
  intro p.
  destruct (negb (tokenAddr p =? EmptyString)%string
            && (10 <? String.length (tokenAddr p))%nat);
    [|apply leaves_ret].
  apply leaves_bind with (Q := boosted_then_trending); auto using leaves_deref.
  intro attr. apply leaves_push. intros l Hl.
  now apply boosted_then_trending_push.
Qed.

Lemma scanTrending_leaves (net : Network) (maxResults : Z) :
  leaves boosted_then_trending boosted_then_trending (scanTrending net maxResults).
Proof.
  unfold scanTrending.
  apply leaves_try_catch with (Q := boosted_then_trending); auto.
  - apply leaves_bind with (Q := boosted_then_trending);
      auto using leaves_fetch_json.
    intro trendingData. apply leaves_for_of, scanTrendingPool_leaves.
  - intro e. apply leaves_ret.
Qed.

Lemma collectOpportunities_leaves (net : Network) (maxResults : Z) :
  leaves (Forall from_boosted) boosted_then_trending
         (collectOpportunities net maxResults).
Proof.
  unfold collectOpportunities.
  apply leaves_try_catch with (Q := boosted_then_trending); auto.
  - apply leaves_bind with (Q := Forall from_boosted);
      auto using leaves_fetch_json, Forall_boosted_then_trending.
    intro boostedData.
    apply leaves_bind with (Q := Forall from_boosted);
      auto using leaves_filter_solana, Forall_boosted_then_trending.
    intro kept.
    apply leaves_bind with (Q := Forall from_boosted);
      auto using Forall_boosted_then_trending.
    + apply leaves_for_of, scanBoostedToken_leaves.
    + intros _ st H. apply scanTrending_leaves.
      now apply Forall_boosted_then_trending.
  - intro e. apply leaves_ret.
Qed.

(** ** Effects: the blocks that catch what they throw *)

Lemma try_catch_warn_normal (body : Eff unit) (st : Store) :
  fst (try_catch body (fun e => console_warn) st) = Normal tt.
Proof.
  unfold try_catch, console_warn, ret.
  destruct (body st) as [[[]|e] st']; reflexivity.
Qed.

Lemma collectOpportunities_normal (net : Network) (maxResults : Z) (st : Store) :
  fst (collectOpportunities net maxResults st) = Normal tt.
Proof. apply try_catch_warn_normal. Qed.

Lemma scanOpportunities_eq (net : Network) chain (maxResults : Z) (st : Store) :
  scanOpportunities net chain maxResults st
  = (Normal (rankOpportunities (engine net)
               (opportunities (collected net maxResults st)) maxResults),
     collected net maxResults st).
Proof.
  unfold scanOpportunities, collected, bind, new_opportunities,
    get_opportunities, ret.
  pose proof (collectOpportunities_normal net maxResults
                {| opportunities := []; requests := requests st |}) as H.
  destruct (collectOpportunities net maxResults _) as [[[]|e] st']; simpl in *.
  - reflexivity.
  - discriminate.
Qed.

Lemma collected_boosted_then_trending net (maxResults : Z) (st : Store) :
  boosted_then_trending (opportunities (collected net maxResults st)).
Proof.
  unfold collected. apply collectOpportunities_leaves. simpl. constructor.
Qed.

(** ** The scorers *)

(** For a known, positive [fdv] the early stage bonus follows the four
    valuation bands. *)
Lemma earlyStageBonus_bands (fdv score : float) :
  Js.lt 0 fdv = true ->
  (Js.lt fdv 500000 = true -> earlyStageBonus fdv score = score + 30) /\
  ((500000 <=? fdv) = true /\ Js.lt fdv 2000000 = true ->
   earlyStageBonus fdv score = score + 20) /\
  ((2000000 <=? fdv) = true /\ Js.lt fdv 10000000 = true ->
   earlyStageBonus fdv score = score + 10) /\
  ((10000000 <=? fdv) = true -> earlyStageBonus fdv score = score).
Proof.
  intro Hpos. unfold earlyStageBonus, Js.gt. rewrite Hpos. simpl.
  assert (Hover : forall bound,
             (bound <=? fdv) = true -> Js.lt fdv bound = false)
    by (intros bound H; now apply Js_le_not_lt).
  assert (Hfar : forall low bound,
             (low <=? bound) = true -> (bound <=? fdv) = true ->
             Js.lt fdv low = false).
  { intros low bound H1 H2. apply Hover. eapply Js_le_trans; eassumption. }
  repeat split.
  - intro H. now rewrite H.
  - intros [H1 H2]. now rewrite (Hover _ H1), H2.
  - intros [H1 H2].
    now rewrite (Hfar 500000 2000000 eq_refl H1), (Hover _ H1), H2.
  - intro H.
    now rewrite (Hfar 500000 10000000 eq_refl H),
      (Hfar 2000000 10000000 eq_refl H), (Hover _ H).
Qed.

(** C2, at the input the code gets wrong: with [fdv == 0] (a pair whose
    [fdv] is missing or zero) the first test fails on [fdv > 0] and the
    chain falls through to [fdv < 2000000], so the early stage bonus adds 20
    where the valuation bands give 0.  A quiet pair scores 20 with an unknown
    or zero [fdv], and 0 with an [fdv] of 10000000. *)
Theorem early_stage_bonus_at_zero_fdv :
  (forall score, earlyStageBonus 0 score = score + 20) /\
  calculateOpportunityScore (quiet_pair None) = 20 /\
  calculateOpportunityScore (quiet_pair (Some 0)) = 20 /\
  calculateOpportunityScore (quiet_pair (Some 10000000)) = 0.
Proof.
  split; [intro score; reflexivity|].
  repeat split; vm_compute; reflexivity.
Qed.

(** A running total of -30 is floored to 0. *)
Example negative_total_floored :
  opportunityRawScore pumped_thin_pair = -30 /\
  calculateOpportunityScore pumped_thin_pair = 0.
Proof. split; vm_compute; reflexivity. Qed.

(** A number that equals [0] is one of the two zeros. *)
Lemma eq_zero_cases (s : float) : (s =? 0) = true -> s = 0 \/ s = -0.
Proof.
  rewrite eqb_spec. unfold SFeqb. intro H.
  assert (E : exists sign, Prim2SF s = S754_zero sign).
  { change (Prim2SF 0) with (S754_zero false) in H.
    destruct (Prim2SF s) as [sign|sign| |sign m e]; simpl in H;
      try discriminate; try (destruct sign; discriminate).
    now exists sign. }
  destruct E as [[|] E]; [right | left]; apply Prim2SF_inj; rewrite E;
    reflexivity.
Qed.

(** [Math.max(0, total)] is at least 0 whenever the total is a number. *)
Lemma Math_max_floor (total : float) :
  is_nan total = false -> (0 <=? Js.Math_max 0 total) = true.
Proof.
  intro Hnum. unfold Js.Math_max. rewrite Hnum. simpl.
  destruct (0 <? total) eqn:Hlt; [now apply Js_lt_le|].
  destruct (total <? 0) eqn:Hgt; [reflexivity|]. simpl.
  assert (Hz : (total =? 0) = true).
  { apply Js_not_lt_eq; auto. }
  destruct (eq_zero_cases _ Hz) as [-> | ->]; reflexivity.
Qed.

(** The floor does not hold of a total that is not a number. *)
Lemma Math_max_NaN (total : float) :
  is_nan total = true -> Js.Math_max 0 total = nan.
Proof. intro H. unfold Js.Math_max. now rewrite H. Qed.

(** ** The floor of the scores *)

Lemma add_if_nonneg (cond : bool) (d s : float) :
  nonneg d -> nonneg s -> nonneg (add_if cond d s).
Proof. intros Hd Hs. unfold add_if. destruct cond; auto using nonneg_add. Qed.

Lemma add_if_within_nonneg (x : option float) (hi c s : float) :
  nonneg c -> finite_number c -> nonneg s ->
  nonneg (add_if_within x 0 hi (fun q => q * c) s).
Proof.
  intros Hc Hfin Hs. unfold add_if_within. destruct x as [q|]; [|exact Hs].
  destruct (Js.gt q 0 && Js.lt q hi) eqn:E; [|exact Hs].
  apply andb_true_iff in E. destruct E as [Hlo Hhi].
  apply nonneg_add; [exact Hs|]. eapply nonneg_mul; eassumption.
Qed.

Lemma sub_if_number (cond : bool) (d s : float) :
  finite_number d -> is_nan s = false -> is_nan (sub_if cond d s) = false.
Proof. intros Hd Hs. unfold sub_if. destruct cond; auto using number_sub. Qed.

Lemma earlyStageBonus_nonneg (fdv : float) : nonneg (earlyStageBonus fdv 0).
Proof.
  unfold earlyStageBonus.
  destruct (Js.gt fdv 0 && Js.lt fdv 500000); [exact I|].
  destruct (Js.lt fdv 2000000); [exact I|].
  destruct (Js.lt fdv 10000000); exact I.
Qed.

(** The running total of the primary scorer is a number, whatever the
    metrics are: missing, NaN or infinite. *)
Lemma opportunityRawScore_number (pair : Pair) :
  is_nan (opportunityRawScore pair) = false.
Proof.
  unfold opportunityRawScore. cbv zeta.
  repeat (apply sub_if_number; [exact I|]).
  apply nonneg_number.
  repeat (apply add_if_nonneg; [exact I|]).
  repeat (apply add_if_within_nonneg; [exact I | exact I |]).
  apply earlyStageBonus_nonneg.
Qed.

Lemma opportunityRawScore_floor (pair : Pair) :
  (0 <=? calculateOpportunityScore pair) = true.
Proof. apply Math_max_floor, opportunityRawScore_number. Qed.

(** The primary scorer returns a number that is at least 0, whatever the
    metrics of the pair are: the total it floors is a sum and a difference
    of numbers, none of which can be NaN. *)
Theorem opportunity_score_floored (pair : Pair) :
  (0 <=? calculateOpportunityScore pair) = true /\
  is_nan (calculateOpportunityScore pair) = false.
Proof.
  pose proof (opportunityRawScore_floor pair) as H.
  split; [exact H | now apply Js_le_numbers in H].
Qed.

Lemma nonneg_value_add (js : Js.Engine) (cond : bool) (v : Js.value) (d : float) :
  (cond = true -> nonneg d) -> nonneg_value v ->
  nonneg_value (if cond then Js.add js v (Js.Num d) else v).
Proof.
  intros Hd [total [-> Ht]]. destruct cond; [|now exists total].
  exists (total + d). split; [reflexivity | now apply nonneg_add; auto].
Qed.

Lemma number_value_sub (js : Js.Engine) (cond : bool) (v : Js.value) (d : float) :
  finite_number d -> number_value v ->
  number_value (if cond then Js.sub js v (Js.Num d) else v).
Proof.
  intros Hd [total [-> Ht]]. destruct cond; [|now exists total].
  exists (total - d). split; [reflexivity | now apply number_sub].
Qed.

(** The running total of the trending scorer is a number as long as the
    six-hour change is not a text: whatever the one-hour change is, a number
    or a text, it enters the total through a product. *)
Lemma geckoRawScore_number (js : Js.Engine) (attr : PoolAttributes) :
  h6_not_text attr -> number_value (geckoRawScore js attr).
Proof.
  unfold h6_not_text, geckoRawScore. cbv zeta. intro Hh6.
  set (h1_number := Js.to_number js (change_h1 (price_change_percentage attr))).
  assert (H1 : nonneg_value
                 (if Js.gt h1_number 0 && Js.lt h1_number 30
                  then Js.add js (Js.Num 0) (Js.Num (h1_number * 2))
                  else Js.Num 0)).
  { apply nonneg_value_add; [|now exists 0].
    intro E. apply andb_true_iff in E. destruct E as [Hlo Hhi].
    eapply nonneg_mul; try eassumption; exact I. }
  repeat (apply number_value_sub; [exact I|]).
  assert (Hnum : forall v, nonneg_value v -> number_value v).
  { intros v [total [-> Ht]]. exists total. auto using nonneg_number. }
  apply Hnum.
  apply (nonneg_value_add js true); [intros _; exact I|].
  apply nonneg_value_add; [intros _; exact I|].
  destruct (change_h6 (price_change_percentage attr)) as [|h6_number|text];
    [exact H1 | | contradiction].
  apply nonneg_value_add; [|exact H1].
  intro E. apply andb_true_iff in E. destruct E as [Hlo _].
  now apply positive_nonneg.
Qed.

(** The trending scorer returns a number that is at least 0 for every pool
    whose six-hour change is a number or is missing. *)
Theorem gecko_score_floored (js : Js.Engine) (attr : PoolAttributes) :
  h6_not_text attr ->
  (0 <=? calculateGeckoScore js attr) = true /\
  is_nan (calculateGeckoScore js attr) = false.
Proof.
  intro Hh6. destruct (geckoRawScore_number js attr Hh6) as [total [Hraw Ht]].
  assert (H : (0 <=? calculateGeckoScore js attr) = true).
  { unfold calculateGeckoScore. rewrite Hraw. now apply Math_max_floor. }
  split; [exact H | now apply Js_le_numbers in H].
Qed.

(** The pool of the samples whose price change is a number. *)
Lemma gecko_score_floored_witness :
  (0 <=? calculateGeckoScore sample_engine sample_attr) = true /\
  is_nan (calculateGeckoScore sample_engine sample_attr) = false.
Proof. apply (gecko_score_floored sample_engine sample_attr). exact I. Defined.

(** ** Price changes that arrive as text *)

(** C5, at the input the code gets wrong.  GeckoTerminal sends the price
    changes as text, and the scorer adds [priceChange.h6] to the total as it
    arrives: for a pool that rose by 0.51 percent in the hour and by 0.86 in
    six hours the total 1.02 becomes the text ['1.020.86'], the two bonuses
    that follow are appended to it, and [Math.max(0, '1.020.862010')] is
    NaN, which is not at least 0.  The engine is any that reads and writes
    these numbers as JavaScript does. *)
Theorem text_price_change_is_appended (js : Js.Engine) :
  Js.ToNumber js "0.51" = 0.51 ->
  Js.ToNumber js "0.86" = 0.86 ->
  Js.ToString js 1.02 = "1.02"%string ->
  Js.ToString js 20 = "20"%string ->
  Js.ToString js 10 = "10"%string ->
  Js.ToNumber js "1.020.862010" = nan ->
  geckoRawScore js text_attr = Js.Text "1.020.862010" /\
  calculateGeckoScore js text_attr = nan /\
  (0 <=? calculateGeckoScore js text_attr) = false.
Proof.
  intros Hh1 Hh6 Htotal Hratio Hbase Hread.
  assert (Hraw : geckoRawScore js text_attr = Js.Text "1.020.862010").
  { unfold geckoRawScore. cbn -[PrimFloat.mul PrimFloat.add PrimFloat.div
                                 PrimFloat.ltb PrimFloat.eqb].
    rewrite Hh1, Hh6. cbn. rewrite Htotal, Hratio, Hbase. reflexivity. }
  split; [exact Hraw|].
  assert (Hscore : calculateGeckoScore js text_attr = nan).
  { unfold calculateGeckoScore. rewrite Hraw. simpl. now rewrite Hread. }
  split; [exact Hscore | now rewrite Hscore].
Qed.

(** The sample engine is such an engine. *)
Lemma text_price_change_is_appended_witness :
  geckoRawScore sample_engine text_attr = Js.Text "1.020.862010" /\
  calculateGeckoScore sample_engine text_attr = nan /\
  (0 <=? calculateGeckoScore sample_engine text_attr) = false.
Proof.
  apply (text_price_change_is_appended sample_engine); reflexivity.
Defined.

(** Where the text that results reads as a number, it is not the sum: a
    pool that rose by 10 percent in the hour and in six hours scores
    20102010, the texts ['20'], ['10'], ['20'] and ['10'] in a row, where the
    sum is 60; with the price changes as numbers the same pool scores 60. *)
Example text_price_change_is_not_added :
  geckoRawScore sample_engine text_tens_attr = Js.Text "20102010" /\
  calculateGeckoScore sample_engine text_tens_attr = 20102010 /\
  calculateGeckoScore sample_engine
    {| name := name text_tens_attr;
       base_token_price_usd := base_token_price_usd text_tens_attr;
       price_change_percentage :=
         changes Js.Undefined (Js.Num 10) (Js.Num 10) Js.Undefined;
       volume_usd_h24 := volume_usd_h24 text_tens_attr;
       reserve_in_usd := reserve_in_usd text_tens_attr |} = 60.
Proof. repeat split; vm_compute; reflexivity. Qed.

(** ** The volume/liquidity ratio *)

(** C6, as stated, fails for a liquidity of 1/2: the code divides the volume
    by 1/2, the stated ratio divides it by 1, and with a volume of 2 the first
    is over the threshold of the +20 bonus and the second is not.  The pair
    scores 30, where a pair that differs only by a liquidity of 1, the
    divisor of the stated ratio, scores 10. *)
Lemma ratio_differs_below_one :
  (0 <=? 0.5) = true /\
  volLiqRatio 2 (Some 0.5) = 4 /\
  spec_volLiqRatio 2 0.5 = 2 /\
  Js.gt (volLiqRatio 2 (Some 0.5)) 2 = true /\
  Js.gt (spec_volLiqRatio 2 0.5) 2 = false /\
  calculateOpportunityScore (ratio_pair 2 0.5) = 30 /\
  calculateOpportunityScore (ratio_pair 2 1) = 10.
Proof. repeat split; vm_compute; reflexivity. Qed.

Lemma or_num_keeps (q d : float) :
  Js.falsy q = false -> Js.or_num (Some q) d = q.
Proof. intro H. unfold Js.or_num. now rewrite H. Qed.

Lemma positive_not_falsy (q : float) : Js.lt 0 q = true -> Js.falsy q = false.
Proof.
  intro H. unfold Js.falsy.
  destruct (Js_lt_not_eq _ _ H) as [_ ->].
  now destruct (Js_lt_numbers _ _ H) as [_ ->].
Qed.

(** The score of a pair of which only the volume and a liquidity between 0
    and 1 are known: 20 for the unknown valuation, the bonuses of the ratio
    [volume24h / liquidity], and 10 off for the thin liquidity. *)
Lemma ratio_pair_score (volume24h liquidity : float) :
  Js.lt 0 liquidity = true -> Js.lt liquidity 1 = true ->
  calculateOpportunityScore (ratio_pair volume24h liquidity)
  = let r := Js.or_num (Some volume24h) 0 / liquidity in
    if Js.gt r 5 then 45 else if Js.gt r 2 then 30 else 10.
Proof.
  intros Hpos Hlow.
  pose proof (positive_not_falsy _ Hpos) as Hfalsy.
  assert (Hthin : Js.lt liquidity 15000 = true).
  { eapply Js_lt_trans; [exact Hlow | reflexivity]. }
  unfold calculateOpportunityScore, opportunityRawScore, ratio_pair, volLiqRatio.
  cbn [liquidity_usd volume_h24 pair_fdv txns_h24_buys txns_h24_sells
       pair_priceChange no_change m5 h1 h6 h24].
  rewrite !(or_num_keeps liquidity) by exact Hfalsy.
  cbv zeta. rewrite Hthin.
  set (r := Js.or_num (Some volume24h) 0 / liquidity).
  destruct (Js.gt r 5) eqn:H5.
  - assert (H2 : Js.gt r 2 = true).
    { unfold Js.gt in *. eapply Js_lt_trans; [|exact H5]. reflexivity. }
    rewrite H2. vm_compute. reflexivity.
  - destruct (Js.gt r 2); vm_compute; reflexivity.
Qed.

(** C6, amended: the divisor of the ratio is [liquidity || 1], that is 1
    for a liquidity that is 0 (or NaN) and the liquidity itself otherwise;
    the ratio is [volume24h / max(liquidity, 1)] when the liquidity is 0 or
    at least 1.  This ratio is the one the bonuses of the primary scorer go
    by: on a pair of which only the volume and the liquidity are known, and
    for a liquidity between 0 and 1 that is [volume24h / liquidity]. *)
Theorem volLiqRatio_divisor (volume24h liquidity : float) :
  (Js.falsy liquidity = true ->
   volLiqRatio volume24h (Some liquidity) = volume24h / 1) /\
  (Js.falsy liquidity = false ->
   volLiqRatio volume24h (Some liquidity) = volume24h / liquidity) /\
  ((liquidity =? 0) = true \/ (1 <=? liquidity) = true ->
   volLiqRatio volume24h (Some liquidity)
   = spec_volLiqRatio volume24h liquidity) /\
  calculateOpportunityScore (ratio_pair volume24h liquidity)
  = (let r := volLiqRatio (Js.or_num (Some volume24h) 0)
                          (Some (Js.or_num (Some liquidity) 0)) in
     Js.Math_max 0
       (sub_if (Js.lt (Js.or_num (Some liquidity) 0) 15000) 10
          (add_if (Js.gt r 5) 15 (add_if (Js.gt r 2) 20 20)))) /\
  (Js.lt 0 liquidity = true /\ Js.lt liquidity 1 = true ->
   calculateOpportunityScore (ratio_pair volume24h liquidity)
   = let r := Js.or_num (Some volume24h) 0 / liquidity in
     if Js.gt r 5 then 45 else if Js.gt r 2 then 30 else 10).
Proof.
  split; [|split; [|split; [|split]]].
  - intro H. unfold volLiqRatio, Js.or_num. now rewrite H.
  - intro H. unfold volLiqRatio. now rewrite or_num_keeps.
  - unfold volLiqRatio, spec_volLiqRatio, Js.or_num, Js.falsy, Js.Math_max.
    intros [Hz|Hge].
    + rewrite Hz. simpl.
      destruct (eq_zero_cases _ Hz) as [-> | ->]; reflexivity.
    + assert (Hpos : Js.lt 0 liquidity = true).
      { eapply Js_lt_le_trans; [|exact Hge]. reflexivity. }
      destruct (Js_lt_not_eq _ _ Hpos) as [_ Hne].
      destruct (Js_le_numbers _ _ Hge) as [_ Hnum].
      rewrite Hne, Hnum. simpl.
      pose proof (Js_le_not_lt _ _ Hge) as Hnot. unfold Js.lt in Hnot.
      rewrite Hnot. now destruct (1 <? liquidity).
  - reflexivity.
  - intros [Hpos Hlow]. now apply ratio_pair_score.
Qed.

(** A liquidity of 1/2 under a volume of 2. *)
Lemma volLiqRatio_divisor_witness :
  volLiqRatio 2 (Some 0.5) = 2 / 0.5 /\
  calculateOpportunityScore (ratio_pair 2 0.5)
  = (let r := Js.or_num (Some 2) 0 / 0.5 in
     if Js.gt r 5 then 45 else if Js.gt r 2 then 30 else 10).
Proof.
  destruct (volLiqRatio_divisor 2 0.5) as [_ [Hdiv [_ [_ Hscore]]]].
  split; [apply Hdiv | apply Hscore; split]; reflexivity.
Defined.

(** ** The scenario of the specification *)

(** C8: the scenario scores exactly 115: early stage 30, m5 momentum 15, h1
    momentum 20, confirmation 15, a volume/liquidity ratio of 3 for 20, a
    buy ratio of 3/2 for 15, and no penalty. *)
Theorem scenario_scores_115 :
  calculateOpportunityScore scenario_pair = 115 /\
  opportunityRawScore scenario_pair = 115 /\
  earlyStageBonus 300000 0 = 30 /\
  add_if_within (Some 5) 0 15 (fun m5 => m5 * 3) 30 = 45 /\
  add_if_within (Some 10) 0 30 (fun h1 => h1 * 2) 45 = 65 /\
  add_if (Js.gt_opt (Some 10) 5 && Js.gt_opt (Some 5) 0) 15 65 = 80 /\
  volLiqRatio 150000 (Some 50000) = 3 /\
  add_if (Js.gt (volLiqRatio 150000 (Some 50000)) 2) 20 80 = 100 /\
  add_if (Js.gt (volLiqRatio 150000 (Some 50000)) 5) 15 100 = 100 /\
  buyRatio 120 80 = 1.5 /\
  add_if (Js.gt (buyRatio 120 80) 1.3) 15 100 = 115 /\
  add_if (Js.gt (buyRatio 120 80) 2) 10 115 = 115.
Proof. repeat split; vm_compute; reflexivity. Qed.

(** ** The trending-pools loop *)

Lemma long_address_not_empty (s : string) :
  (10 <? String.length s)%nat = true -> (s =? EmptyString)%string = false.
Proof. destruct s; [discriminate | reflexivity]. Qed.

Lemma long_enough_iff (pool : Pool) :
  long_enough pool = true <-> (11 <= String.length (tokenAddr pool))%nat.
Proof. unfold long_enough. rewrite Nat.ltb_lt. lia. Qed.

Lemma scanTrendingPool_some (js : Js.Engine) (pool : Pool) (st : Store) :
  attributes pool <> None ->
  scanTrendingPool js (Some pool) st
  = (Normal tt,
     {| opportunities :=
          opportunities st
          ++ (if long_enough pool then candidates_of js pool else []);
        requests := requests st |}).
Proof.
  intro Hattr. unfold scanTrendingPool, long_enough, candidates_of, bind, deref, ret.
  destruct (10 <? String.length (tokenAddr pool))%nat eqn:E.
  - rewrite (long_address_not_empty _ E). simpl.
    destruct (attributes pool) as [attr|]; [reflexivity | contradiction].
  - rewrite andb_false_r, app_nil_r. now destruct st.
Qed.

Lemma trending_loop (js : Js.Engine) (pools : list Pool) (st : Store) :
  Forall (fun pool => attributes pool <> None) pools ->
  for_of (map Some pools) (scanTrendingPool js) st
  = (Normal tt,
     {| opportunities :=
          opportunities st
          ++ flat_map (candidates_of js) (filter long_enough pools);
        requests := requests st |}).
Proof.
  intro Hall. revert st. induction Hall as [|pool pools Hattr _ IH]; intro st; simpl.
  - rewrite app_nil_r. now destruct st.
  - unfold bind. rewrite (scanTrendingPool_some js pool st Hattr), IH. simpl.
    destruct (long_enough pool); simpl.
    + now rewrite <- app_assoc.
    + now rewrite app_nil_r.
Qed.

Lemma Array_slice0_map {A B} (f : A -> B) (arr : list A) (n : Z) :
  Array_slice0 (map f arr) n = map f (Array_slice0 arr n).
Proof.
  unfold Array_slice0. rewrite length_map. apply firstn_map.
Qed.

Lemma candidates_of_mints (js : Js.Engine) (pools : list Pool) :
  Forall (fun pool => attributes pool <> None) pools ->
  map mint (flat_map (candidates_of js) pools) = map tokenAddr pools.
Proof.
  induction 1 as [|pool pools Hattr _ IH]; simpl; [reflexivity|].
  unfold candidates_of at 1.
  destruct (attributes pool); [|contradiction]. simpl. now rewrite IH.
Qed.

(** C7, as stated, fails for an address of exactly ten characters: the pool
    is within the ten-or-more band of the claim, and the adapter pushes no
    candidate for it. *)
Lemma ten_character_address_discarded :
  (10 <= String.length (tokenAddr (sample_pool "ABCDEFGHIJ")))%nat /\
  trending_pools ten_characters 0 trending_url = Normal (one_pool "ABCDEFGHIJ") /\
  opportunities (snd (scanTrending ten_characters 5 start)) = [] /\
  fst (scanOpportunities ten_characters "solana" 5 start) = Normal [].
Proof. repeat split. vm_compute. lia. Qed.

(** C7, amended: of the pools the loop visits (the first [maxResults], each
    with its attributes), the adapter discards exactly those whose extracted
    address has ten characters or fewer, and pushes one candidate, with that
    address as its mint, for every pool whose address has eleven or more. *)
Theorem trending_keeps_addresses_over_ten
  (net : Network) (maxResults : Z) (st : Store) (pools : list Pool) :
  trending_pools net (List.length (requests st)) trending_url
  = Normal {| data := Some (map Some pools) |} ->
  Forall (fun pool => attributes pool <> None) pools ->
  opportunities (snd (scanTrending net maxResults st))
  = opportunities st
    ++ flat_map (candidates_of (engine net))
         (filter long_enough (Array_slice0 pools maxResults)) /\
  map mint (flat_map (candidates_of (engine net))
              (filter long_enough (Array_slice0 pools maxResults)))
  = map tokenAddr (filter long_enough (Array_slice0 pools maxResults)) /\
  (forall pool,
      In pool (filter long_enough (Array_slice0 pools maxResults)) <->
      In pool (Array_slice0 pools maxResults) /\
      (11 <= String.length (tokenAddr pool))%nat).
Proof.
  intros Hfetch Hattr.
  assert (Hvisited : Forall (fun pool => attributes pool <> None)
                            (Array_slice0 pools maxResults)).
  { apply Forall_forall. intros pool Hin.
    eapply Forall_forall in Hattr; [eassumption|].
    eapply Array_slice0_In, Hin. }
  split; [|split; [|intro pool; split]].
  - unfold scanTrending, try_catch, bind, fetch_json. rewrite Hfetch. simpl.
    rewrite Array_slice0_map, (trending_loop _ _ _ Hvisited). reflexivity.
  - apply candidates_of_mints, Forall_forall. intros pool Hin.
    apply filter_In in Hin. eapply Forall_forall in Hvisited; [eassumption|tauto].
  - intro Hin. apply filter_In in Hin. destruct Hin as [Hin Hlong].
    split; [assumption | now apply long_enough_iff].
  - intros [Hin Hlen]. apply filter_In. split; [assumption|].
    now apply long_enough_iff.
Qed.

(** The three pools of [both_up]: the addresses of sixteen and eleven
    characters are kept, the one of ten is not. *)
Lemma trending_keeps_addresses_over_ten_witness :
  opportunities (snd (scanTrending both_up 5 start))
  = opportunities start
    ++ flat_map (candidates_of (engine both_up))
         (filter long_enough
            (Array_slice0 three_pools 5)) /\
  map mint (flat_map (candidates_of (engine both_up))
              (filter long_enough
                 (Array_slice0 three_pools 5)))
  = map tokenAddr
      (filter long_enough
         (Array_slice0 three_pools 5)) /\
  (forall pool,
      In pool (filter long_enough
                 (Array_slice0 three_pools 5)) <->
      In pool (Array_slice0 three_pools 5) /\
      (11 <= String.length (tokenAddr pool))%nat).
Proof.
  apply (trending_keeps_addresses_over_ten both_up 5 start three_pools).
  - reflexivity.
  - repeat constructor; discriminate.
Defined.

(** ** The ranked result *)

Lemma rankOpportunities_In (js : Js.Engine) (l : list Candidate) (maxResults : Z)
  (c : Candidate) :
  In c (rankOpportunities js l maxResults) -> In c (first_occurrences [] l).
Proof.
  unfold rankOpportunities. intro H. apply Array_slice0_In in H.
  rewrite <- uniqueOpportunities_first_occurrences.
  eapply Permutation_in; [apply Array_sort_perm | exact H].
Qed.

Lemma rankOpportunities_NoDup (js : Js.Engine) (l : list Candidate)
  (maxResults : Z) :
  NoDup (map mint (rankOpportunities js l maxResults)).
Proof.
  unfold rankOpportunities. apply Array_slice0_NoDup.
  eapply Permutation_NoDup.
  - apply Permutation_map. symmetry. apply Array_sort_perm.
  - rewrite uniqueOpportunities_first_occurrences.
    apply first_occurrences_NoDup.
Qed.

Lemma rankOpportunities_first (js : Js.Engine) (l : list Candidate)
  (maxResults : Z) (c : Candidate) :
  In c (rankOpportunities js l maxResults) -> find (same_mint c) l = Some c.
Proof.
  intro H. apply rankOpportunities_In in H.
  now apply first_occurrences_find in H.
Qed.

Lemma rankOpportunities_nil (js : Js.Engine) (maxResults : Z) :
  rankOpportunities js [] maxResults = [].
Proof. unfold rankOpportunities, Array_slice0. simpl. apply firstn_nil. Qed.

(** The result and what the truncation drops are, together, the first
    occurrences; the result holds as many of them as the slice keeps. *)
Lemma rankOpportunities_split (js : Js.Engine) (l : list Candidate)
  (maxResults : Z) :
  exists dropped,
    Permutation (rankOpportunities js l maxResults ++ dropped)
                (first_occurrences [] l) /\
    Z.of_nat (List.length (rankOpportunities js l maxResults))
    = kept_of (List.length (rankOpportunities js l maxResults ++ dropped))
              maxResults.
Proof.
  unfold rankOpportunities.
  set (sorted := Array_sort js by_score_desc (uniqueOpportunities l)).
  destruct (Array_slice0_prefix sorted maxResults) as [dropped Hsplit].
  exists dropped. rewrite <- Hsplit. split.
  - unfold sorted. rewrite <- uniqueOpportunities_first_occurrences.
    apply Array_sort_perm.
  - apply Array_slice0_length_exact.
Qed.

Lemma find_in_front {A} (p : A -> bool) (front back : list A) (b : A) :
  In b front -> p b = true ->
  exists x, In x front /\ find p (front ++ back) = Some x.
Proof.
  induction front as [|a front IH]; simpl; intros Hin Hb; [contradiction|].
  destruct (p a) eqn:E.
  - exists a. auto.
  - destruct Hin as [->|Hin]; [congruence|].
    destruct (IH Hin Hb) as [x [Hx Hf]]. exists x. auto.
Qed.

Lemma boosted_not_trending (c : Candidate) : from_boosted c -> ~ from_trending c.
Proof. unfold from_boosted, from_trending. intros -> H. discriminate. Qed.

Lemma first_of_mint_is_boosted (l : list Candidate) (c b : Candidate) :
  boosted_then_trending l -> find (same_mint c) l = Some c ->
  In b l -> mint b = mint c -> from_boosted b -> from_boosted c.
Proof.
  intros [bs [ts [-> [Hbs Hts]]]] Hfind Hin Hmint Hb.
  apply in_app_or in Hin. destruct Hin as [Hin|Hin].
  - destruct (find_in_front (same_mint c) bs ts b Hin) as [x [Hx Hf]].
    + now apply same_mint_eq.
    + rewrite Hf in Hfind. injection Hfind as ->.
      eapply Forall_forall in Hbs; eassumption.
  - eapply Forall_forall in Hts; [|eassumption].
    now apply boosted_not_trending in Hb.
Qed.

(** C3: the scan keeps one candidate of every mint that was collected, the
    first one in the array the adapters pushed to, boosted adapter first.
    The result and the candidates that the cut to [maxResults] drops hold no
    two candidates with the same mint; every collected mint is among them;
    each of them is the first candidate with its mint in the array; the
    result holds as many of them as [slice(0, maxResults)] keeps.  Where a
    boosted candidate has the mint, a boosted candidate is the one
    retained. *)
Theorem scan_keeps_first_occurrence
  (net : Network) (chain : string) (maxResults : Z) (st : Store) :
  exists result dropped,
    scanOpportunities net chain maxResults st
    = (Normal result, collected net maxResults st) /\
    NoDup (map mint (result ++ dropped)) /\
    (forall c, In c (opportunities (collected net maxResults st)) ->
       In (mint c) (map mint (result ++ dropped))) /\
    (forall c, In c (result ++ dropped) ->
       find (same_mint c) (opportunities (collected net maxResults st)) = Some c) /\
    Z.of_nat (List.length result)
    = kept_of (List.length (result ++ dropped)) maxResults /\
    boosted_then_trending (opportunities (collected net maxResults st)) /\
    (forall c b,
       In c (result ++ dropped) ->
       In b (opportunities (collected net maxResults st)) ->
       mint b = mint c -> from_boosted b -> from_boosted c).
Proof.
  set (all := opportunities (collected net maxResults st)).
  destruct (rankOpportunities_split (engine net) all maxResults)
    as [dropped [Hperm Hlen]].
  exists (rankOpportunities (engine net) all maxResults), dropped.
  pose proof (collected_boosted_then_trending net maxResults st) as Horder.
  assert (Hfirst : forall c,
             In c (rankOpportunities (engine net) all maxResults ++ dropped) ->
             find (same_mint c) all = Some c).
  { intros c Hc. apply (Permutation_in _ Hperm) in Hc.
    now apply first_occurrences_find in Hc. }
  split; [apply scanOpportunities_eq|]. repeat split.
  - eapply Permutation_NoDup.
    + apply Permutation_map. symmetry. exact Hperm.
    + apply first_occurrences_NoDup.
  - intros c Hc. eapply Permutation_in.
    + apply Permutation_map. symmetry. exact Hperm.
    + now apply first_occurrences_complete.
  - exact Hfirst.
  - exact Hlen.
  - exact Horder.
  - intros c b Hc Hb Hmint Hboosted. apply Hfirst in Hc.
    eapply first_of_mint_is_boosted; eassumption.
Qed.

(** Both providers list one mint, the trending one with the higher score:
    the boosted candidate, pushed first, is the one in the result. *)
Example first_occurrence_not_higher_score :
  map (fun c => (mint c, source c, score c))
      (opportunities (snd (scanOpportunities both_up "solana" 5 start)))
  = [("ABCDEFGHIJKLMNOP", "dexscreener-boosted", 5);
     ("ABCDEFGHIJKLMNOP", "geckoterminal-trending", 50);
     ("ABCDEFGHIJK", "geckoterminal-trending", 50)] /\
  option_map (map (fun c => (mint c, source c, score c)))
             (match fst (scanOpportunities both_up "solana" 5 start) with
              | Normal result => Some result
              | Abrupt _ => None
              end)
  = Some [("ABCDEFGHIJK", "geckoterminal-trending", 50);
          ("ABCDEFGHIJKLMNOP", "dexscreener-boosted", 5)].
Proof. split; vm_compute; reflexivity. Qed.

(** The result holds at most [maxResults] candidates when [maxResults] is
    not negative. *)
Lemma scan_length_bounded
  (net : Network) (chain : string) (maxResults : Z) (st : Store) :
  (0 <= maxResults)%Z ->
  exists result,
    fst (scanOpportunities net chain maxResults st) = Normal result /\
    (Z.of_nat (List.length result) <= maxResults)%Z.
Proof.
  intro Hn. rewrite scanOpportunities_eq. eexists. split; [reflexivity|].
  unfold rankOpportunities. now apply Array_slice0_length.
Qed.

(** C4, at the input the code gets wrong.  The trending provider lists
    three pools with their price changes as text, as GeckoTerminal sends
    them.  The second scores NaN, its six-hour change having been appended
    to its total as a text, so the comparator [b.score - a.score] is NaN
    against it, the sort leaves the array as it is, and the result holds the
    scores 10, NaN and 50 in this order: it does not descend by score, and
    no arrangement of these candidates does.  The length is within
    [maxResults]. *)
Theorem text_scores_are_not_sorted :
  exists result,
    scanOpportunities text_changes "solana" 5 start
    = (Normal result, collected text_changes 5 start) /\
    map score result = [10; nan; 50] /\
    (Z.of_nat (List.length result) <= 5)%Z /\
    ~ StronglySorted score_ge result /\
    (forall arranged,
        Permutation arranged result -> ~ StronglySorted score_ge arranged).
Proof.
  eexists. split; [apply scanOpportunities_eq|].
  set (result := rankOpportunities _ _ _).
  assert (Hresult : result
                    = [trendingCandidate sample_engine
                         (pool_of "FLATFLATFLATFLAT" text_flat_attr) text_flat_attr;
                       trendingCandidate sample_engine
                         (pool_of "UPUPUPUPUPUPUPUP" text_attr) text_attr;
                       trendingCandidate sample_engine
                         (pool_of "HOURHOURHOURHOUR" text_hour_attr) text_hour_attr])
    by (vm_compute; reflexivity).
  assert (Hall : forall arranged,
             Permutation arranged result -> ~ StronglySorted score_ge arranged).
  { intros arranged Hperm. rewrite Hresult in Hperm.
    apply (NaN_score_unsorted arranged
             (trendingCandidate sample_engine
                (pool_of "UPUPUPUPUPUPUPUP" text_attr) text_attr)
             (trendingCandidate sample_engine
                (pool_of "FLATFLATFLATFLAT" text_flat_attr) text_flat_attr)).
    - eapply Permutation_in; [symmetry; exact Hperm | simpl; auto].
    - eapply Permutation_in; [symmetry; exact Hperm | simpl; auto].
    - intro E. apply (f_equal mint) in E. vm_compute in E. discriminate.
    - vm_compute. reflexivity. }
  split; [|split; [|split]].
  - rewrite Hresult. vm_compute. reflexivity.
  - rewrite Hresult. simpl. lia.
  - now apply Hall.
  - exact Hall.
Qed.

(** ** Failures of the providers *)

(** The trending block contains its own failure: what the boosted loop
    pushed stays in the array. *)
Lemma trending_failure_contained
  (net : Network) (maxResults : Z) (st : Store) (e : exn) :
  trending_pools net (List.length (requests st)) trending_url = Abrupt e ->
  scanTrending net maxResults st
  = (Normal tt,
     {| opportunities := opportunities st;
        requests := requests st ++ [trending_url] |}).
Proof.
  intro H. unfold scanTrending, try_catch, bind, fetch_json. now rewrite H.
Qed.

(** With the trending provider down, the boosted candidate is the result. *)
Example trending_down_keeps_boosted :
  scanOpportunities trending_down "solana" 5 start
  = (Normal [boostedCandidate
               {| chainId := Some "solana"; tokenAddress := "ABCDEFGHIJKLMNOP" |}
               low_pair],
     {| opportunities :=
          [boostedCandidate
             {| chainId := Some "solana"; tokenAddress := "ABCDEFGHIJKLMNOP" |}
             low_pair];
        requests := [boosted_url; token_url "ABCDEFGHIJKLMNOP"; trending_url] |}).
Proof. reflexivity. Qed.

(** C1, at the input the code gets wrong: when the boosted-tokens request
    fails, control leaves the outer [try] before the trending block is
    reached, so the scan sends the one request and returns the empty list,
    whatever the trending provider would have answered. *)
Theorem boosted_failure_cancels_trending
  (net : Network) (chain : string) (maxResults : Z) (st : Store) (e : exn) :
  boosts_latest net (List.length (requests st)) boosted_url = Abrupt e ->
  scanOpportunities net chain maxResults st
  = (Normal [],
     {| opportunities := []; requests := requests st ++ [boosted_url] |}).
Proof.
  intro H. rewrite scanOpportunities_eq.
  unfold collected, collectOpportunities, try_catch, bind, fetch_json.
  simpl. rewrite H. simpl. now rewrite rankOpportunities_nil.
Qed.

(** On [boosted_down] the scan returns nothing, while the trending block
    run on its own pushes the trending candidate. *)
Lemma boosted_failure_cancels_trending_witness :
  scanOpportunities boosted_down "solana" 5 start
  = (Normal [],
     {| opportunities := []; requests := requests start ++ [boosted_url] |}) /\
  opportunities (snd (scanTrending boosted_down 5 start))
  = [trendingCandidate (engine boosted_down)
       (sample_pool "ABCDEFGHIJKLMNOP") sample_attr].
Proof.
  split.
  - apply (boosted_failure_cancels_trending boosted_down "solana" 5 start
             (JsError "fetch failed")).
    reflexivity.
  - reflexivity.
Defined.

(** ** The solana_scan tool *)

(** The scan itself returns normally, so the tool reports success. *)
Lemma solana_scan_succeeds
  (net : Network) (chain : option string) (maxResults : option Z) (st : Store) :
  exists opps st',
    solana_scan net chain maxResults st
    = (Normal (ScanSuccess opps (Z.of_nat (List.length opps))), st').
Proof.
  unfold solana_scan, try_catch, bind. rewrite scanOpportunities_eq.
  eexists. eexists. reflexivity.
Qed.

(** C9: whatever the providers do, the handler of the tool returns
    normally, with a success result that holds the opportunities and their
    count, or with a failure result that holds a reason. *)
Theorem solana_scan_never_throws
  (net : Network) (chain : option string) (maxResults : option Z) (st : Store) :
  exists result st',
    solana_scan net chain maxResults st = (Normal result, st') /\
    ((exists opps, result = ScanSuccess opps (Z.of_nat (List.length opps))) \/
     (exists reason, result = ScanFailure reason)).
Proof.
  unfold solana_scan, try_catch, bind, ret.
  destruct (scanOpportunities net _ _ st) as [[opps|e] st'].
  - exists (ScanSuccess opps (Z.of_nat (List.length opps))), st'.
    split; [reflexivity|]. left. now exists opps.
  - exists (ScanFailure (failure_reason e)), st'.
    split; [reflexivity|]. right. now exists (failure_reason e).
Qed.

(** Asked for another chain, the scan still keeps the tokens whose
    [chainId] is ['solana'] and still requests the trending pools of the
    solana network. *)
Example scan_of_another_chain :
  requests (snd (scanOpportunities both_up "ethereum" 5 start))
  = [boosted_url; token_url "ABCDEFGHIJKLMNOP"; trending_url] /\
  scanOpportunities both_up "ethereum" 5 start
  = scanOpportunities both_up "solana" 5 start.
Proof. split; reflexivity. Qed.

(** C10: the scan does not look at [chain]: two scans that differ only in
    it send the same requests and return the same result, from the function
    and from the tool. *)
Theorem chain_is_ignored
  (net : Network) (c1 c2 : string) (maxResults : Z) (st : Store) :
  scanOpportunities net c1 maxResults st = scanOpportunities net c2 maxResults st /\
  requests (snd (scanOpportunities net c1 maxResults st))
  = requests (snd (scanOpportunities net c2 maxResults st)) /\
  solana_scan net (Some c1) (Some maxResults) st
  = solana_scan net (Some c2) (Some maxResults) st.
Proof.
  unfold solana_scan. rewrite !scanOpportunities_eq. auto.
Qed.

(** * Further properties of the scan *)

(** ** The loops, run *)

Lemma store_eta (st : Store) :
  {| opportunities := opportunities st ++ []; requests := requests st |} = st.
Proof. rewrite app_nil_r. now destruct st. Qed.

Lemma filter_solana_run (boostedData : list (option BoostedToken)) (st : Store) :
  filter_solana boostedData st
  = (match all_present boostedData with
     | Some tokens => Normal (filter is_solana tokens)
     | None => Abrupt TypeError
     end, st).
Proof.
  induction boostedData as [|[t|] rest IH]; simpl; try reflexivity.
  unfold bind at 1. simpl. unfold bind at 1. rewrite IH.
  destruct (all_present rest) as [tokens|]; simpl; [|reflexivity].
  unfold ret. now destruct (is_solana t).
Qed.

Lemma scanBoostedToken_run (net : Network) (token : BoostedToken) (st : Store) :
  scanBoostedToken net token st
  = (Normal tt,
     {| opportunities :=
          opportunities st
          ++ candidate_of_detail token
               (token_pairs net (List.length (requests st))
                            (token_url (tokenAddress token)));
        requests := requests st ++ [token_url (tokenAddress token)] |}).
Proof.
  unfold scanBoostedToken, try_catch, bind, fetch_json, candidate_of_detail,
    console_warn, ret.
  destruct (token_pairs net _ _) as [tokenData|e]; simpl.
  - destruct (pairs tokenData) as [[|[first|] more]|]; simpl;
      now rewrite ?app_nil_r.
  - now rewrite app_nil_r.
Qed.

Lemma boosted_loop_run (net : Network) (tokens : list BoostedToken) (st : Store) :
  for_of tokens (scanBoostedToken net) st
  = (Normal tt,
     {| opportunities :=
          opportunities st ++ boosted_pushes net (List.length (requests st)) tokens;
        requests :=
          requests st ++ map (fun t => token_url (tokenAddress t)) tokens |}).
Proof.
  revert st. induction tokens as [|token rest IH]; intro st; simpl.
  - unfold ret. now rewrite !app_nil_r; destruct st.
  - unfold bind. rewrite scanBoostedToken_run, IH. simpl.
    rewrite length_app, Nat.add_1_r, <- !app_assoc. reflexivity.
Qed.

Lemma scanTrendingPool_run (js : Js.Engine) (pool : Pool) (st : Store) :
  scanTrendingPool js (Some pool) st
  = if long_enough pool
    then match attributes pool with
         | Some attr =>
             (Normal tt,
              {| opportunities :=
                   opportunities st ++ [trendingCandidate js pool attr];
                 requests := requests st |})
         | None => (Abrupt TypeError, st)
         end
    else (Normal tt, st).
Proof.
  unfold scanTrendingPool, long_enough, bind, deref, ret, throw. simpl.
  destruct (10 <? String.length (tokenAddr pool))%nat eqn:E.
  - rewrite (long_address_not_empty _ E). simpl.
    now destruct (attributes pool).
  - now rewrite andb_false_r.
Qed.

Lemma trending_loop_run (js : Js.Engine) (pools : list (option Pool))
  (st : Store) :
  snd (for_of pools (scanTrendingPool js) st)
  = {| opportunities := opportunities st ++ trending_pushes js pools;
       requests := requests st |}.
Proof.
  revert st. induction pools as [|[pool|] rest IH]; intro st; simpl.
  - now rewrite store_eta.
  - unfold bind. rewrite scanTrendingPool_run.
    destruct (long_enough pool).
    + destruct (attributes pool) as [attr|]; simpl.
      * rewrite IH. simpl. now rewrite <- app_assoc.
      * now rewrite store_eta.
    + apply IH.
  - now rewrite store_eta.
Qed.

Lemma scanTrending_run (net : Network) (maxResults : Z) (st : Store) :
  scanTrending net maxResults st
  = (Normal tt,
     {| opportunities :=
          opportunities st
          ++ trending_part (engine net)
               (trending_pools net (List.length (requests st)) trending_url)
               maxResults;
        requests := requests st ++ [trending_url] |}).
Proof.
  unfold scanTrending, try_catch, bind, fetch_json, trending_part,
    console_warn, ret.
  destruct (trending_pools net _ _) as [trendingData|e]; simpl.
  - match goal with
    | |- context [for_of ?pools (scanTrendingPool ?js) ?st1] =>
        pose proof (trending_loop_run js pools st1) as Hrun;
        destruct (for_of pools (scanTrendingPool js) st1) as [[[]|e] st2]
    end; simpl in Hrun; now subst st2.
  - now rewrite app_nil_r.
Qed.

(** The store the outer block leaves, from the two top-level responses. *)
Lemma collectOpportunities_run (net : Network) (maxResults : Z) (st : Store) :
  collectOpportunities net maxResults st
  = (Normal tt,
     match solTokens_of (boosts_latest net (List.length (requests st)) boosted_url)
                        maxResults with
     | None =>
         {| opportunities := opportunities st;
            requests := requests st ++ [boosted_url] |}
     | Some solTokens =>
         {| opportunities :=
              opportunities st
              ++ boosted_pushes net (S (List.length (requests st))) solTokens
              ++ trending_part (engine net)
                   (trending_pools net
                      (S (List.length (requests st)) + List.length solTokens)
                      trending_url)
                   maxResults;
            requests :=
              requests st
              ++ boosted_url
                 :: map (fun t => token_url (tokenAddress t)) solTokens
              ++ [trending_url] |}
     end).
Proof.
  unfold collectOpportunities, try_catch, solTokens_of.
  unfold bind at 1. unfold fetch_json at 1.
  destruct (boosts_latest net _ _) as [boostedData|e]; [|reflexivity].
  unfold bind at 1. rewrite filter_solana_run.
  destruct (all_present (or_empty boostedData)) as [tokens|]; simpl;
    [|reflexivity].
  unfold bind. rewrite boosted_loop_run, scanTrending_run. simpl.
  rewrite !length_app, length_map. simpl.
  rewrite Nat.add_1_r, <- !app_assoc. reflexivity.
Qed.

(** ** The requests of a scan *)

(** The scan requests the boosted tokens; when that response can be read
    it then requests the detail of every visited token, in order and
    whatever the earlier details answered, and last the trending pools. *)
Theorem scan_request_trace
  (net : Network) (chain : string) (maxResults : Z) (st : Store) :
  requests (snd (scanOpportunities net chain maxResults st))
  = requests st
    ++ match solTokens_of
               (boosts_latest net (List.length (requests st)) boosted_url)
               maxResults with
       | None => [boosted_url]
       | Some solTokens =>
           boosted_url
             :: map (fun t => token_url (tokenAddress t)) solTokens
             ++ [trending_url]
       end.
Proof.
  rewrite scanOpportunities_eq. unfold collected. simpl.
  rewrite collectOpportunities_run. simpl.
  now destruct (solTokens_of _ _).
Qed.

Lemma solTokens_of_length
  (response : completion (option (list (option BoostedToken))))
  (maxResults : Z) (solTokens : list BoostedToken) :
  (0 <= maxResults)%Z -> solTokens_of response maxResults = Some solTokens ->
  (Z.of_nat (List.length solTokens) <= maxResults)%Z.
Proof.
  intros Hn H. unfold solTokens_of in H.
  destruct response as [boostedData|e]; [|discriminate].
  destruct (all_present (or_empty boostedData)) as [tokens|]; [|discriminate].
  injection H as <-. now apply Array_slice0_length.
Qed.

(** For a [maxResults] that is not negative, a scan sends at most
    [maxResults + 2] requests. *)
Theorem scan_request_budget
  (net : Network) (chain : string) (maxResults : Z) (st : Store) :
  (0 <= maxResults)%Z ->
  (Z.of_nat (List.length (requests (snd (scanOpportunities net chain maxResults st))))
   <= Z.of_nat (List.length (requests st)) + maxResults + 2)%Z.
Proof.
  intro Hn. rewrite scanOpportunities_eq. unfold collected. simpl.
  rewrite collectOpportunities_run. simpl.
  destruct (solTokens_of _ _) as [solTokens|] eqn:E; simpl.
  - apply (solTokens_of_length _ _ _ Hn) in E.
    rewrite length_app. simpl. rewrite length_app, length_map. simpl. lia.
  - rewrite length_app. simpl. lia.
Qed.

(** Both providers up, five results asked for: at most seven requests. *)
Lemma scan_request_budget_witness :
  (Z.of_nat (List.length (requests (snd (scanOpportunities both_up "solana" 5 start))))
   <= Z.of_nat (List.length (requests start)) + 5 + 2)%Z.
Proof.
  apply (scan_request_budget both_up "solana" 5 start). discriminate.
Defined.

(** ** What a scan collects *)

Lemma collected_opportunities (net : Network) (maxResults : Z) (st : Store) :
  opportunities (collected net maxResults st)
  = match solTokens_of
            (boosts_latest net (List.length (requests st)) boosted_url)
            maxResults with
    | None => []
    | Some solTokens =>
        boosted_pushes net (S (List.length (requests st))) solTokens
        ++ trending_part (engine net)
             (trending_pools net
                (S (List.length (requests st)) + List.length solTokens)
                trending_url)
             maxResults
    end.
Proof.
  unfold collected. rewrite collectOpportunities_run. simpl.
  now destruct (solTokens_of _ _).
Qed.

Lemma boosted_pushes_nth (net : Network) (tokens : list BoostedToken)
  (tick i : nat) (token : BoostedToken) (c : Candidate) :
  nth_error tokens i = Some token ->
  In c (candidate_of_detail token
          (token_pairs net (tick + i) (token_url (tokenAddress token)))) ->
  In c (boosted_pushes net tick tokens).
Proof.
  revert tick i. induction tokens as [|t rest IH]; intros tick i Hnth Hc.
  - destruct i; discriminate.
  - simpl. apply in_or_app. destruct i as [|i]; simpl in Hnth.
    + injection Hnth as ->. rewrite Nat.add_0_r in Hc. now left.
    + right. apply (IH (S tick) i Hnth).
      now rewrite Nat.add_succ_comm.
Qed.

Lemma boosted_pushes_length (net : Network) (tokens : list BoostedToken) tick :
  (List.length (boosted_pushes net tick tokens) <= List.length tokens)%nat.
Proof.
  revert tick. induction tokens as [|t rest IH]; intro tick; simpl; [lia|].
  rewrite length_app. specialize (IH (S tick)).
  assert (List.length (candidate_of_detail t
            (token_pairs net tick (token_url (tokenAddress t)))) <= 1)%nat.
  { unfold candidate_of_detail.
    destruct (token_pairs net tick _) as [tokenData|e]; simpl; [|lia].
    destruct (pairs tokenData) as [[|[first|] more]|]; simpl; lia. }
  lia.
Qed.

(** A token whose detail is answered with a first pair has its candidate
    in the collected array, whatever the detail requests of the other
    tokens did. *)
Theorem detail_failures_are_local
  (net : Network) (chain : string) (maxResults : Z) (st : Store)
  (solTokens : list BoostedToken) (i : nat) (token : BoostedToken)
  (tokenData : TokenData) (first : Pair) (more : list (option Pair)) :
  solTokens_of (boosts_latest net (List.length (requests st)) boosted_url)
               maxResults = Some solTokens ->
  nth_error solTokens i = Some token ->
  token_pairs net (S (List.length (requests st)) + i)
              (token_url (tokenAddress token)) = Normal tokenData ->
  pairs tokenData = Some (Some first :: more) ->
  In (boostedCandidate token first)
     (opportunities (snd (scanOpportunities net chain maxResults st))).
Proof.
  intros Hsol Hnth Hdetail Hpairs.
  rewrite scanOpportunities_eq. simpl.
  rewrite collected_opportunities, Hsol.
  apply in_or_app. left.
  apply (boosted_pushes_nth net solTokens _ i token _ Hnth).
  rewrite Hdetail. simpl. rewrite Hpairs. now left.
Qed.

(** The first detail request of [flaky_details] fails; the candidate of
    the second token is collected. *)
Lemma detail_failures_are_local_witness :
  In (boostedCandidate
        {| chainId := Some "solana"; tokenAddress := "BBBBBBBBBBBBBBBB" |}
        low_pair)
     (opportunities (snd (scanOpportunities flaky_details "solana" 5 start))).
Proof.
  apply (detail_failures_are_local flaky_details "solana" 5 start
           [{| chainId := Some "solana"; tokenAddress := "AAAAAAAAAAAAAAAA" |};
            {| chainId := Some "solana"; tokenAddress := "BBBBBBBBBBBBBBBB" |}]
           1 _ {| pairs := Some [Some low_pair] |} low_pair []);
    reflexivity.
Defined.

(** ** Partial results of the trending loop *)

Lemma trending_pushes_until (js : Js.Engine) (good : list Pool)
  (bad : option Pool) (rest : list (option Pool)) :
  Forall (fun pool => attributes pool <> None) good -> malformed bad ->
  trending_pushes js (map Some good ++ bad :: rest)
  = flat_map (candidates_of js) (filter long_enough good).
Proof.
  intros Hgood Hbad. induction Hgood as [|pool good Hattr _ IH]; simpl.
  - destruct bad as [pool|]; [|reflexivity].
    destruct Hbad as [Hlong Hnone]. now rewrite Hlong, Hnone.
  - destruct (long_enough pool); simpl; [|exact IH].
    unfold candidates_of at 1. simpl in Hattr.
    destruct (attributes pool) as [attr|]; [|congruence].
    simpl. now rewrite IH.
Qed.

Lemma Array_slice0_reaches {A} (front : list A) (x : A) (rest : list A) (n : Z) :
  (Z.of_nat (List.length front) < n)%Z ->
  exists rest', Array_slice0 (front ++ x :: rest) n = front ++ x :: rest'.
Proof.
  intro Hn. unfold Array_slice0.
  destruct (n <? 0)%Z eqn:E; [apply Z.ltb_lt in E; lia|].
  rewrite length_app. simpl.
  remember (Z.to_nat (Z.min n (Z.of_nat (List.length front + S (List.length rest)))))
    as k eqn:Hk.
  assert (Hlt : (List.length front < k)%nat) by lia.
  rewrite firstn_app, firstn_all2 by lia.
  destruct (k - List.length front)%nat as [|j] eqn:Ej; [lia|].
  simpl. now exists (firstn j rest).
Qed.

(** The trending loop has one [try] around all its iterations: at a [null]
    entry, or at a pool with a long address and no attributes, it stops.
    The candidates of the pools before that entry are kept, the pools after
    it are not visited, and the block still returns normally. *)
Theorem trending_stops_at_malformed_entry
  (net : Network) (maxResults : Z) (st : Store)
  (good : list Pool) (bad : option Pool) (rest : list (option Pool)) :
  trending_pools net (List.length (requests st)) trending_url
  = Normal {| data := Some (map Some good ++ bad :: rest) |} ->
  Forall (fun pool => attributes pool <> None) good ->
  malformed bad ->
  (Z.of_nat (List.length good) < maxResults)%Z ->
  scanTrending net maxResults st
  = (Normal tt,
     {| opportunities :=
          opportunities st
          ++ flat_map (candidates_of (engine net)) (filter long_enough good);
        requests := requests st ++ [trending_url] |}).
Proof.
  intros Hfetch Hgood Hbad Hn.
  rewrite scanTrending_run, Hfetch. unfold trending_part. simpl.
  destruct (Array_slice0_reaches (map Some good) bad rest maxResults)
    as [rest' Hslice].
  { now rewrite length_map. }
  now rewrite Hslice, trending_pushes_until.
Qed.

(** On [broken_entry] the first pool is kept and the third is lost. *)
Lemma trending_stops_at_malformed_entry_witness :
  scanTrending broken_entry 5 start
  = (Normal tt,
     {| opportunities :=
          opportunities start
          ++ flat_map (candidates_of (engine broken_entry))
               (filter long_enough [sample_pool "ABCDEFGHIJKLMNOP"]);
        requests := requests start ++ [trending_url] |}).
Proof.
  apply (trending_stops_at_malformed_entry broken_entry 5 start
           [sample_pool "ABCDEFGHIJKLMNOP"] None
           [Some (sample_pool "QRSTUVWXYZABCDEF")]).
  - reflexivity.
  - repeat constructor; discriminate.
  - exact I.
  - reflexivity.
Defined.

(** ** A trending failure leaves the boosted candidates *)

Lemma first_occurrences_length (seen arr : list Candidate) :
  (List.length (first_occurrences seen arr) <= List.length arr)%nat.
Proof.
  revert seen. induction arr as [|x rest IH]; intro seen; simpl; [lia|].
  specialize (IH (seen ++ [x])).
  destruct (existsb (same_mint x) seen); simpl; lia.
Qed.

Lemma rankOpportunities_all (js : Js.Engine) (l : list Candidate)
  (maxResults : Z) :
  (Z.of_nat (List.length l) <= maxResults)%Z ->
  rankOpportunities js l maxResults
  = Array_sort js by_score_desc (uniqueOpportunities l).
Proof.
  intro Hn. unfold rankOpportunities. apply Array_slice0_all.
  rewrite (Permutation_length (Array_sort_perm js by_score_desc _)).
  rewrite uniqueOpportunities_first_occurrences.
  pose proof (first_occurrences_length [] l). lia.
Qed.

(** When the trending request fails, nothing of the boosted adapter is
    lost: for a [maxResults] that is not negative the result is the
    boosted candidates without their duplicates, and every boosted
    candidate has its mint in it. *)
Theorem trending_failure_keeps_boosted
  (net : Network) (chain : string) (maxResults : Z) (st : Store)
  (solTokens : list BoostedToken) (e : exn) :
  (0 <= maxResults)%Z ->
  solTokens_of (boosts_latest net (List.length (requests st)) boosted_url)
               maxResults = Some solTokens ->
  trending_pools net (S (List.length (requests st)) + List.length solTokens)
                 trending_url = Abrupt e ->
  exists result,
    fst (scanOpportunities net chain maxResults st) = Normal result /\
    Permutation result
      (uniqueOpportunities
         (boosted_pushes net (S (List.length (requests st))) solTokens)) /\
    (forall c,
        In c (boosted_pushes net (S (List.length (requests st))) solTokens) ->
        In (mint c) (map mint result)).
Proof.
  intros Hn Hsol Htrending.
  rewrite scanOpportunities_eq. simpl.
  rewrite collected_opportunities, Hsol, Htrending. simpl. rewrite app_nil_r.
  eexists. split; [reflexivity|].
  rewrite rankOpportunities_all.
  - split; [apply Array_sort_perm|].
    intros c Hc. eapply Permutation_in.
    + apply Permutation_map. symmetry. apply Array_sort_perm.
    + rewrite uniqueOpportunities_first_occurrences.
      now apply first_occurrences_complete.
  - pose proof (boosted_pushes_length net solTokens (S (List.length (requests st)))).
    pose proof (solTokens_of_length _ _ _ Hn Hsol). lia.
Qed.

(** On [trending_down] the boosted candidate is the result. *)
Lemma trending_failure_keeps_boosted_witness :
  exists result,
    fst (scanOpportunities trending_down "solana" 5 start) = Normal result /\
    Permutation result
      (uniqueOpportunities
         (boosted_pushes trending_down (S (List.length (requests start)))
            [{| chainId := Some "solana"; tokenAddress := "ABCDEFGHIJKLMNOP" |}])) /\
    (forall c,
        In c (boosted_pushes trending_down (S (List.length (requests start)))
                [{| chainId := Some "solana";
                    tokenAddress := "ABCDEFGHIJKLMNOP" |}]) ->
        In (mint c) (map mint result)).
Proof.
  apply (trending_failure_keeps_boosted trending_down "solana" 5 start
           [{| chainId := Some "solana"; tokenAddress := "ABCDEFGHIJKLMNOP" |}]
           (JsError "fetch failed")).
  - discriminate.
  - reflexivity.
  - reflexivity.
Defined.

(** ** The order of the result *)

Lemma consistent_spec {A} (compareFn : A -> A -> float) (l : list A) :
  consistent compareFn l = true <->
  forall a b, In a l -> In b l -> is_nan (compareFn a b) = false.
Proof.
  unfold consistent. rewrite forallb_forall. split.
  - intros H a b Ha Hb. specialize (H a Ha). rewrite forallb_forall in H.
    now apply negb_true_iff, H.
  - intros H a Ha. apply forallb_forall. intros b Hb.
    apply negb_true_iff. now apply H.
Qed.

(** Where the comparator is a number, it puts [y] before [x] exactly when
    [x] scores less than [y]. *)
Lemma by_score_desc_before (x y : Candidate) :
  is_nan (by_score_desc x y) = false ->
  Js.gt (by_score_desc x y) 0 = true -> score_ge y x.
Proof.
  unfold by_score_desc, score_ge. intros Hnum H.
  rewrite (Js_difference_sign _ _ Hnum) in H. now apply Js_lt_le.
Qed.

Lemma by_score_desc_stays (x y : Candidate) :
  is_nan (by_score_desc x y) = false ->
  Js.gt (by_score_desc x y) 0 = false -> score_ge x y.
Proof.
  unfold by_score_desc, score_ge. intros Hnum H.
  rewrite (Js_difference_sign _ _ Hnum) in H.
  destruct (difference_operands _ _ Hnum) as [Hx Hy].
  now apply Js_not_lt_le.
Qed.

Lemma score_ge_trans (a b c : Candidate) :
  score_ge a b -> score_ge b c -> score_ge a c.
Proof. unfold score_ge. intros H1 H2. eapply Js_le_trans; eassumption. Qed.

Lemma sort_insert_HdRel (a x : Candidate) (l : list Candidate) :
  score_ge a x -> HdRel score_ge a l ->
  HdRel score_ge a (sort_insert by_score_desc x l).
Proof.
  intros Hx Hl. destruct l as [|y l]; simpl.
  - now constructor.
  - inversion Hl; subst.
    destruct (Js.gt (by_score_desc x y) 0); now constructor.
Qed.

Lemma sort_insert_Sorted (x : Candidate) (l : list Candidate) :
  Forall (fun y => is_nan (by_score_desc x y) = false) l ->
  Sorted score_ge l -> Sorted score_ge (sort_insert by_score_desc x l).
Proof.
  induction l as [|y l IH]; simpl; intros Hnum H.
  - repeat constructor.
  - inversion H as [|? ? Hs Hh]; subst.
    inversion Hnum as [|? ? Hy Hrest]; subst.
    destruct (Js.gt (by_score_desc x y) 0) eqn:E.
    + constructor; [now apply IH|].
      apply sort_insert_HdRel; [|assumption].
      now apply by_score_desc_before.
    + constructor; [assumption|].
      constructor. now apply by_score_desc_stays.
Qed.

(** Under a comparator that is consistent on the array, the sort leaves it
    descending by score. *)
Lemma Array_sort_sorted (js : Js.Engine) (l : list Candidate) :
  consistent by_score_desc l = true ->
  StronglySorted score_ge (Array_sort js by_score_desc l).
Proof.
  intro Hc. unfold Array_sort. rewrite Hc.
  apply Sorted_StronglySorted; [intros a b c; apply score_ge_trans|].
  rewrite consistent_spec in Hc.
  induction l as [|x l IH]; simpl; [constructor|].
  apply sort_insert_Sorted.
  - apply Forall_forall. intros y Hy. apply Hc; [now left|]. right.
    eapply Permutation_in; [|exact Hy].
    clear. induction l as [|a l IH]; simpl; [constructor|].
    etransitivity; [apply sort_insert_perm | now apply perm_skip].
  - apply IH. intros a b Ha Hb. apply Hc; now right.
Qed.

(** Scores that are finite numbers make the comparator consistent. *)
Lemma finite_scores_consistent (l : list Candidate) :
  Forall (fun c => finite_number (score c)) l ->
  consistent by_score_desc l = true.
Proof.
  intro H. rewrite Forall_forall in H. apply consistent_spec.
  intros a b Ha Hb. unfold by_score_desc. apply number_sub; [|now apply H].
  specialize (H b Hb). unfold finite_number in H.
  destruct (is_nan (score b)) eqn:E; [|reflexivity].
  apply is_nan_spec in E. now rewrite E in H.
Qed.

(** ** What the truncation keeps *)

Lemma StronglySorted_app_cross {A} (R : A -> A -> Prop) (l1 l2 : list A) :
  StronglySorted R (l1 ++ l2) ->
  forall a b, In a l1 -> In b l2 -> R a b.
Proof.
  induction l1 as [|x l1 IH]; simpl; intros H a b Ha Hb; [contradiction|].
  inversion H as [|? ? Hs Hf]; subst. destruct Ha as [->|Ha].
  - eapply Forall_forall in Hf; [eassumption|]. apply in_or_app. now right.
  - now apply IH.
Qed.

(** When no difference of two scores of the candidates without duplicates
    is NaN, the result is the head of these candidates sorted: it descends
    by score, and every candidate that the truncation drops scores no more
    than every candidate of the result.  The result holds [maxResults]
    candidates, or all of them when there are fewer; a negative [maxResults]
    drops that many candidates from the low end instead. *)
Theorem scan_truncation_keeps_best
  (net : Network) (chain : string) (maxResults : Z) (st : Store) :
  consistent by_score_desc
    (uniqueOpportunities
       (opportunities (snd (scanOpportunities net chain maxResults st))))
  = true ->
  exists result dropped,
    fst (scanOpportunities net chain maxResults st) = Normal result /\
    Array_sort (engine net) by_score_desc
      (uniqueOpportunities
         (opportunities (snd (scanOpportunities net chain maxResults st))))
    = result ++ dropped /\
    StronglySorted score_ge result /\
    (forall c d, In c result -> In d dropped -> (score d <=? score c) = true) /\
    Z.of_nat (List.length result)
    = kept_of
        (List.length
           (uniqueOpportunities
              (opportunities (snd (scanOpportunities net chain maxResults st)))))
        maxResults.
Proof.
  rewrite scanOpportunities_eq. simpl. unfold rankOpportunities. intro Hc.
  set (sorted := Array_sort (engine net) by_score_desc
                   (uniqueOpportunities
                      (opportunities (collected net maxResults st)))).
  assert (Hsorted : StronglySorted score_ge sorted)
    by now apply Array_sort_sorted.
  destruct (Array_slice0_prefix sorted maxResults) as [dropped Hsplit].
  exists (Array_slice0 sorted maxResults), dropped.
  split; [reflexivity|]. split; [exact Hsplit|]. split; [|split].
  - now apply Array_slice0_sorted.
  - intros c d Hc' Hd.
    apply (StronglySorted_app_cross score_ge (Array_slice0 sorted maxResults)
                                    dropped); try assumption.
    now rewrite <- Hsplit.
  - rewrite Array_slice0_length_exact. unfold sorted.
    now rewrite (Permutation_length (Array_sort_perm _ by_score_desc _)).
Qed.

(** On [two_mints], asked for one result: the trending candidate of score
    50 is kept and the boosted one of score 5 is dropped. *)
Lemma scan_truncation_keeps_best_witness :
  exists result dropped,
    fst (scanOpportunities two_mints "solana" 1 start) = Normal result /\
    Array_sort (engine two_mints) by_score_desc
      (uniqueOpportunities
         (opportunities (snd (scanOpportunities two_mints "solana" 1 start))))
    = result ++ dropped /\
    StronglySorted score_ge result /\
    (forall c d, In c result -> In d dropped -> (score d <=? score c) = true) /\
    Z.of_nat (List.length result)
    = kept_of
        (List.length
           (uniqueOpportunities
              (opportunities (snd (scanOpportunities two_mints "solana" 1 start)))))
        1.
Proof.
  apply (scan_truncation_keeps_best two_mints "solana" 1 start).
  vm_compute. reflexivity.
Defined.

Example two_mints_ranked :
  option_map (map (fun c => (mint c, score c)))
             (match fst (scanOpportunities two_mints "solana" 1 start) with
              | Normal result => Some result
              | Abrupt _ => None
              end)
  = Some [("QRSTUVWXYZABCDEF", 50)] /\
  map (fun c => (mint c, score c))
      (opportunities (snd (scanOpportunities two_mints "solana" 1 start)))
  = [("ABCDEFGHIJKLMNOP", 5); ("QRSTUVWXYZABCDEF", 50)].
Proof. split; vm_compute; reflexivity. Qed.

(** ** Ties *)

Lemma scores_not_below (v : float) (x y : Candidate) :
  scores v x = true -> scores v y = true -> Js.lt (score x) (score y) = false.
Proof.
  unfold scores. intros Hx Hy.
  destruct (Js_eq_le _ _ Hx) as [_ Hvx]. destruct (Js_eq_le _ _ Hy) as [Hyv _].
  apply Js_le_not_lt. eapply Js_le_trans; eassumption.
Qed.

Lemma sort_insert_stable (v : float) (x : Candidate) (l : list Candidate) :
  Forall (fun y => is_nan (by_score_desc x y) = false) l ->
  filter (scores v) (sort_insert by_score_desc x l)
  = if scores v x then x :: filter (scores v) l else filter (scores v) l.
Proof.
  induction 1 as [|y l Hy _ IH]; simpl; [reflexivity|].
  destruct (Js.gt (by_score_desc x y) 0) eqn:E; simpl; [|reflexivity].
  rewrite IH. unfold by_score_desc in Hy, E.
  rewrite (Js_difference_sign _ _ Hy) in E.
  destruct (scores v y) eqn:Ey, (scores v x) eqn:Ex; try reflexivity.
  rewrite (scores_not_below v x y Ex Ey) in E. discriminate.
Qed.

Lemma Array_sort_stable (js : Js.Engine) (v : float) (l : list Candidate) :
  consistent by_score_desc l = true ->
  filter (scores v) (Array_sort js by_score_desc l) = filter (scores v) l.
Proof.
  intro Hc. unfold Array_sort. rewrite Hc. rewrite consistent_spec in Hc.
  induction l as [|x l IH]; simpl; [reflexivity|].
  rewrite sort_insert_stable.
  - rewrite IH; [reflexivity|]. intros a b Ha Hb. apply Hc; now right.
  - apply Forall_forall. intros y Hy. apply Hc; [now left|]. right.
    eapply Permutation_in; [|exact Hy].
    clear. induction l as [|a l IH]; simpl; [constructor|].
    etransitivity; [apply sort_insert_perm | now apply perm_skip].
Qed.

(** When no difference of two scores of the candidates without duplicates
    is NaN, candidates of equal score keep the order in which they were
    pushed, boosted ones first: the candidates of one score in the result
    are the first of that score among the candidates without duplicates. *)
Theorem scan_ties_keep_push_order
  (net : Network) (chain : string) (maxResults : Z) (st : Store) (v : float) :
  consistent by_score_desc
    (uniqueOpportunities
       (opportunities (snd (scanOpportunities net chain maxResults st))))
  = true ->
  exists result later,
    fst (scanOpportunities net chain maxResults st) = Normal result /\
    filter (scores v)
      (uniqueOpportunities
         (opportunities (snd (scanOpportunities net chain maxResults st))))
    = filter (scores v) result ++ later.
Proof.
  rewrite scanOpportunities_eq. simpl. unfold rankOpportunities. intro Hc.
  set (sorted := Array_sort (engine net) by_score_desc
                   (uniqueOpportunities
                      (opportunities (collected net maxResults st)))).
  destruct (Array_slice0_prefix sorted maxResults) as [dropped Hsplit].
  exists (Array_slice0 sorted maxResults), (filter (scores v) dropped).
  split; [reflexivity|].
  rewrite <- filter_app, <- Hsplit. unfold sorted.
  symmetry. now apply Array_sort_stable.
Qed.

(** On [tied_pools] the two trending candidates of score 50 come in the
    order of the payload, before the boosted candidate of score 5. *)
Lemma scan_ties_keep_push_order_witness :
  exists result later,
    fst (scanOpportunities tied_pools "solana" 5 start) = Normal result /\
    filter (scores 50)
      (uniqueOpportunities
         (opportunities (snd (scanOpportunities tied_pools "solana" 5 start))))
    = filter (scores 50) result ++ later.
Proof.
  apply (scan_ties_keep_push_order tied_pools "solana" 5 start 50).
  vm_compute. reflexivity.
Defined.

Example tied_pools_ranked :
  option_map (map (fun c => (mint c, score c)))
             (match fst (scanOpportunities tied_pools "solana" 5 start) with
              | Normal result => Some result
              | Abrupt _ => None
              end)
  = Some [("QRSTUVWXYZABCDEF", 50); ("GHIJKLMNOPQRSTUV", 50);
          ("ABCDEFGHIJKLMNOP", 5)].
Proof. vm_compute. reflexivity. Qed.

(** ** What every candidate of a result looks like *)

Lemma or_str_not_empty (x : option string) (d : string) :
  d <> EmptyString -> Js.or_str x d <> EmptyString.
Proof.
  intro Hd. unfold Js.or_str. destruct x as [[|c s]|]; try assumption.
  discriminate.
Qed.

Lemma boostedCandidate_well_formed (token : BoostedToken) (pair : Pair) :
  well_formed (boostedCandidate token pair).
Proof.
  unfold well_formed, from_boosted, from_trending. simpl.
  split; [|split; [|split]].
  - apply or_str_not_empty. discriminate.
  - now left.
  - intros _. split; [apply opportunityRawScore_floor|].
    repeat split; now apply or_num_number.
  - discriminate.
Qed.

Lemma trendingCandidate_well_formed (js : Js.Engine) (pool : Pool)
  (attr : PoolAttributes) :
  long_enough pool = true -> well_formed (trendingCandidate js pool attr).
Proof.
  intro Hlong. unfold well_formed, from_boosted, from_trending. simpl.
  split; [|split; [|split]].
  - apply or_str_not_empty. discriminate.
  - now right.
  - discriminate.
  - intros _. split; [now apply long_enough_iff | reflexivity].
Qed.

Lemma boosted_pushes_well_formed (net : Network) (tokens : list BoostedToken) tick :
  Forall well_formed (boosted_pushes net tick tokens).
Proof.
  revert tick. induction tokens as [|t rest IH]; intro tick; simpl; [constructor|].
  apply Forall_app. split; [|apply IH].
  unfold candidate_of_detail.
  destruct (token_pairs net tick _) as [tokenData|e]; [|constructor].
  destruct (pairs tokenData) as [[|[first|] more]|]; try apply Forall_nil.
  apply Forall_cons; [apply boostedCandidate_well_formed | apply Forall_nil].
Qed.

Lemma trending_pushes_well_formed (js : Js.Engine) (pools : list (option Pool)) :
  Forall well_formed (trending_pushes js pools).
Proof.
  induction pools as [|[pool|] rest IH]; simpl; try constructor.
  destruct (long_enough pool) eqn:E; [|exact IH].
  destruct (attributes pool) as [attr|]; constructor; [|exact IH].
  now apply trendingCandidate_well_formed.
Qed.

(** Every candidate of a result has a symbol that is not empty and one of
    the two source tags; a boosted one has a score of at least 0 and
    numbers, not NaN, for volume, liquidity and fdv; a trending one has a
    mint of eleven characters or more and an fdv of 0. *)
Theorem scan_result_well_formed
  (net : Network) (chain : string) (maxResults : Z) (st : Store) :
  exists result,
    fst (scanOpportunities net chain maxResults st) = Normal result /\
    Forall well_formed result.
Proof.
  rewrite scanOpportunities_eq. simpl. eexists. split; [reflexivity|].
  apply Forall_forall. intros c Hc.
  apply rankOpportunities_In, first_occurrences_In in Hc.
  rewrite collected_opportunities in Hc.
  destruct (solTokens_of _ _) as [solTokens|]; [|contradiction].
  apply in_app_or in Hc. destruct Hc as [Hc|Hc].
  - eapply Forall_forall in Hc; [eassumption|].
    apply boosted_pushes_well_formed.
  - unfold trending_part in Hc.
    destruct (trending_pools net _ _) as [trendingData|e]; [|contradiction].
    eapply Forall_forall in Hc; [eassumption|].
    apply trending_pushes_well_formed.
Qed.

(** ** The address of a trending pool *)

Lemma String_replace_unfold (pattern replacement s : string) :
  String_replace pattern replacement s
  = if String.prefix pattern s
    then (replacement ++
          String.substring (String.length pattern)
            (String.length s - String.length pattern) s)%string
    else match s with
         | EmptyString => EmptyString
         | String c rest => String c (String_replace pattern replacement rest)
         end.
Proof. destruct s; reflexivity. Qed.

Lemma prefix_append (p a : string) : String.prefix p (p ++ a)%string = true.
Proof.
  induction p as [|c p IH]; simpl.
  - now destruct a.
  - destruct (ascii_dec c c); [exact IH | contradiction].
Qed.

Lemma substring_whole (a : string) : String.substring 0 (String.length a) a = a.
Proof. induction a as [|c a IH]; simpl; [reflexivity | now rewrite IH]. Qed.

Lemma substring_after_prefix (p a : string) :
  String.substring (String.length p)
    (String.length (p ++ a)%string - String.length p) (p ++ a)%string = a.
Proof.
  induction p as [|c p IH]; simpl.
  - rewrite Nat.sub_0_r. apply substring_whole.
  - exact IH.
Qed.

Lemma String_replace_prefix (p a : string) :
  String_replace p EmptyString (p ++ a)%string = a.
Proof.
  rewrite String_replace_unfold, prefix_append. simpl.
  apply substring_after_prefix.
Qed.

(** The address of a pool whose relationship identifier is ['solana_']
    followed by an address is that address, and a pool with such an
    identifier and its attributes is pushed with that address as its mint
    exactly when the address has eleven characters or more. *)
Theorem tokenAddr_strips_prefix
  (js : Js.Engine) (address : string) (attr : PoolAttributes) (st : Store) :
  tokenAddr {| base_token_id := Some ("solana_" ++ address)%string;
               attributes := Some attr |} = address /\
  map mint
      (opportunities
         (snd (scanTrendingPool js
                 (Some {| base_token_id := Some ("solana_" ++ address)%string;
                          attributes := Some attr |}) st)))
  = map mint (opportunities st)
    ++ (if (11 <=? String.length address)%nat then [address] else []).
Proof.
  assert (Haddr : tokenAddr {| base_token_id := Some ("solana_" ++ address)%string;
                               attributes := Some attr |} = address).
  { unfold tokenAddr. simpl Js.or_str.
    apply (String_replace_prefix "solana_" address). }
  split; [exact Haddr|].
  rewrite scanTrendingPool_run. unfold long_enough. rewrite Haddr.
  change (11 <=? String.length address)%nat
    with (10 <? String.length address)%nat.
  cbn [attributes].
  destruct (10 <? String.length address)%nat;
    cbn [snd opportunities].
  - rewrite map_app. cbn [map mint trendingCandidate]. now rewrite Haddr.
  - now rewrite app_nil_r.
Qed.

(** ** The solana_scan tool, again *)


(** When the boosted-tokens request fails, the tool reports success with
    an empty list and a count of 0, after that one request: an outage of
    the provider reads like a scan that found nothing. *)
Theorem solana_scan_outage_is_empty_success
  (net : Network) (chain : option string) (maxResults : option Z) (st : Store)
  (e : exn) :
  boosts_latest net (List.length (requests st)) boosted_url = Abrupt e ->
  solana_scan net chain maxResults st
  = (Normal (ScanSuccess [] 0),
     {| opportunities := []; requests := requests st ++ [boosted_url] |}).
Proof.
  intro H. unfold solana_scan, try_catch, bind.
  rewrite scanOpportunities_eq, collected_opportunities.
  unfold collected. rewrite collectOpportunities_run. simpl.
  rewrite H. simpl. now rewrite rankOpportunities_nil.
Qed.

(** The tool on [boosted_down], with no arguments. *)
Lemma solana_scan_outage_is_empty_success_witness :
  solana_scan boosted_down None None start
  = (Normal (ScanSuccess [] 0),
     {| opportunities := []; requests := requests start ++ [boosted_url] |}).
Proof.
  apply (solana_scan_outage_is_empty_success boosted_down None None start
           (JsError "fetch failed")).
  reflexivity.
Defined.

Local Close Scope float_scope.

(** * Token symbols and mints *)

Lemma resolveTokenMint_known (token symbol mint : string) :
  In (symbol, mint) COMMON_MINTS -> String_toUpperCase token = symbol ->
  resolveTokenMint token = mint.
Proof.
  intros Hin Hup. unfold resolveTokenMint. rewrite Hup.
  simpl in Hin.
  repeat (destruct Hin as [Hin|Hin];
          [injection Hin as <- <-; reflexivity|]).
  contradiction.
Qed.

Lemma resolveTokenMint_unknown (token : string) :
  ~ In (String_toUpperCase token) (map fst COMMON_MINTS) ->
  resolveTokenMint token = token.
Proof.
  intro Hnot. unfold resolveTokenMint. simpl in Hnot.
  repeat match goal with
         | |- context [(String_toUpperCase token =? ?s)%string] =>
             destruct (String.eqb_spec (String_toUpperCase token) s) as [E|_];
             [exfalso; apply Hnot; rewrite E; tauto|]
         end.
  now destruct (20 <? String.length token)%nat.
Qed.

(** A token is looked up by its upper-cased text among the five symbols of
    the table; any other token, short or long, is returned as it is. *)
Theorem resolveTokenMint_cases (token : string) :
  (exists symbol mint,
      In (symbol, mint) COMMON_MINTS /\
      String_toUpperCase token = symbol /\
      resolveTokenMint token = mint) \/
  (~ In (String_toUpperCase token) (map fst COMMON_MINTS) /\
   resolveTokenMint token = token).
Proof.
  destruct (in_dec string_dec (String_toUpperCase token) (map fst COMMON_MINTS))
    as [Hin|Hnot].
  - left. apply in_map_iff in Hin. destruct Hin as [[symbol mint] [Hs Hin]].
    simpl in Hs. symmetry in Hs. exists symbol, mint.
    repeat split; try assumption.
    now apply (resolveTokenMint_known token symbol mint).
  - right. split; [assumption | now apply resolveTokenMint_unknown].
Qed.

(** Resolving a symbol of the table, in any letter case, and resolving the
    mint back gives the symbol in upper case. *)
Theorem resolve_symbol_round_trip (token : string) :
  In (String_toUpperCase token) (map fst COMMON_MINTS) ->
  resolveTokenSymbol (resolveTokenMint token) = String_toUpperCase token.
Proof.
  intro Hin. apply in_map_iff in Hin. destruct Hin as [[symbol mint] [Hs Hin]].
  simpl in Hs. symmetry in Hs.
  rewrite (resolveTokenMint_known token symbol mint Hin Hs), Hs.
  simpl in Hin.
  repeat (destruct Hin as [Hin|Hin];
          [injection Hin as <- <-; reflexivity|]).
  contradiction.
Qed.

Lemma resolve_symbol_round_trip_witness :
  resolveTokenSymbol (resolveTokenMint "usdc") = String_toUpperCase "usdc".
Proof.
  apply (resolve_symbol_round_trip "usdc"). simpl. tauto.
Defined.

(** Resolving a mint of the table to its symbol and the symbol back gives
    the mint. *)
Theorem resolve_mint_round_trip (mint : string) :
  In mint (map snd COMMON_MINTS) ->
  resolveTokenMint (resolveTokenSymbol mint) = mint.
Proof.
  intro Hin. simpl in Hin.
  repeat (destruct Hin as [Hin|Hin]; [subst mint; reflexivity|]).
  contradiction.
Qed.

Lemma resolve_mint_round_trip_witness :
  resolveTokenMint (resolveTokenSymbol COMMON_MINTS_RAY) = COMMON_MINTS_RAY.
Proof.
  apply (resolve_mint_round_trip COMMON_MINTS_RAY). simpl. tauto.
Defined.

(** Resolving twice is resolving once: a resolved token is never taken for
    a symbol. *)
Theorem resolveTokenMint_idempotent (token : string) :
  resolveTokenMint (resolveTokenMint token) = resolveTokenMint token.
Proof.
  destruct (resolveTokenMint_cases token)
    as [[symbol [mint [Hin [_ Hres]]]]|[_ Hsame]].
  - rewrite Hres. simpl in Hin.
    repeat (destruct Hin as [Hin|Hin];
            [injection Hin as <- <-; reflexivity|]).
    contradiction.
  - now rewrite !Hsame.
Qed.

(** * The wallet and swap tools *)

(** ** The wallet file *)

Lemma world_eta (w : World) :
  {| files := files w; generated := generated w; calls := calls w |} = w.
Proof. now destruct w. Qed.

Lemma walletExists_run (path : string) (w : World) :
  walletExists path w
  = (Normal (match lookup_file (files w) path with
             | Some _ => true
             | None => false
             end), w).
Proof.
  unfold walletExists, io_try_catch, io_bind, fs_access, io_ret.
  now destruct (lookup_file (files w) path).
Qed.

Lemma loadWallet_run (pf : Platform) (path : string) (w : World) :
  loadWallet pf path w
  = (match lookup_file (files w) path with
     | Some text =>
         match Keypair_fromJson pf text with
         | Normal keypair => Normal keypair
         | Abrupt e => Abrupt (load_failure pf path e)
         end
     | None => Abrupt (load_failure pf path (ENOENT path))
     end, w).
Proof.
  unfold loadWallet, io_try_catch, io_bind, fs_readFile, io_lift, io_throw,
    load_failure.
  destruct (lookup_file (files w) path) as [text|]; [|reflexivity].
  now destruct (Keypair_fromJson pf text).
Qed.

Lemma getAddress_run (pf : Platform) (path : string) (w : World) :
  getAddress pf path w
  = (match lookup_file (files w) path with
     | Some text =>
         match Keypair_fromJson pf text with
         | Normal keypair => Normal (publicKey keypair)
         | Abrupt e => Abrupt (load_failure pf path e)
         end
     | None => Abrupt (load_failure pf path (ENOENT path))
     end, w).
Proof.
  unfold getAddress, io_bind. rewrite loadWallet_run.
  destruct (lookup_file (files w) path) as [text|]; [|reflexivity].
  now destruct (Keypair_fromJson pf text).
Qed.

(** Asked to create a wallet where a wallet file exists, the tool
    generates no key and writes no file: it answers with the address of the
    key in the file, or throws when the file cannot be read as a key. *)
Theorem create_keeps_existing_wallet
  (pf : Platform) (config : PluginConfig) (w : World) (text : string) :
  lookup_file (files w) (walletPath config) = Some text ->
  solana_wallet pf config ActionCreate w
  = (match Keypair_fromJson pf text with
     | Normal keypair =>
         Normal (with_address (publicKey keypair)
                   (with_message "Wallet already exists" (wallet_reply true)))
     | Abrupt e => Abrupt (load_failure pf (walletPath config) e)
     end, w).
Proof.
  intro Hfile. unfold solana_wallet, io_bind.
  rewrite walletExists_run, Hfile, getAddress_run, Hfile.
  now destruct (Keypair_fromJson pf text).
Qed.

Lemma create_keeps_existing_wallet_witness :
  solana_wallet sample_platform sample_config ActionCreate world_with_wallet
  = (match Keypair_fromJson sample_platform "key*" with
     | Normal keypair =>
         Normal (with_address (publicKey keypair)
                   (with_message "Wallet already exists" (wallet_reply true)))
     | Abrupt e => Abrupt (load_failure sample_platform
                             (walletPath sample_config) e)
     end, world_with_wallet).
Proof.
  apply (create_keeps_existing_wallet sample_platform sample_config
           world_with_wallet "key*").
  reflexivity.
Defined.

(** Without a wallet file and without [autoCreateWallet], the address and
    balance actions answer 'Wallet not found' and touch nothing: no key, no
    file, no call. *)
Theorem wallet_not_found_touches_nothing
  (pf : Platform) (config : PluginConfig) (action : WalletAction) (w : World) :
  lookup_file (files w) (walletPath config) = None ->
  autoCreateWallet config = false ->
  action = ActionAddress \/ action = ActionBalance ->
  solana_wallet pf config action w = (Normal wallet_not_found, w).
Proof.
  intros Hfile Hauto [->| ->]; unfold solana_wallet, io_bind;
    now rewrite walletExists_run, Hfile, Hauto.
Qed.

Lemma wallet_not_found_touches_nothing_witness :
  solana_wallet sample_platform sample_config ActionBalance empty_world
  = (Normal wallet_not_found, empty_world).
Proof.
  apply (wallet_not_found_touches_nothing sample_platform sample_config
           ActionBalance empty_world); try reflexivity.
  now right.
Defined.

(** The wallet tool has no [try] of its own: when the wallet file exists
    and cannot be read as a key, each of its three actions throws the error
    of [loadWallet], which names the path. *)
Theorem wallet_tool_throws_on_bad_file
  (pf : Platform) (config : PluginConfig) (action : WalletAction) (w : World)
  (text : string) (e : exn) :
  lookup_file (files w) (walletPath config) = Some text ->
  Keypair_fromJson pf text = Abrupt e ->
  action = ActionCreate \/ action = ActionAddress \/ action = ActionBalance ->
  solana_wallet pf config action w
  = (Abrupt (load_failure pf (walletPath config) e), w).
Proof.
  intros Hfile Hkey [->|[->| ->]]; unfold solana_wallet, io_bind;
    rewrite walletExists_run, Hfile; cbv beta iota delta [negb];
    now rewrite getAddress_run, Hfile, Hkey.
Qed.

Lemma wallet_tool_throws_on_bad_file_witness :
  solana_wallet sample_platform sample_config ActionAddress world_with_garbage
  = (Abrupt (load_failure sample_platform (walletPath sample_config)
               (JsError "bad secret key size")),
     world_with_garbage).
Proof.
  apply (wallet_tool_throws_on_bad_file sample_platform sample_config
           ActionAddress world_with_garbage "not a key");
    try reflexivity.
  right. now left.
Defined.

Lemma lookup_file_written (fs : list (string * string)) (path text : string) :
  lookup_file ((path, text) :: fs) path = Some text.
Proof. simpl. now rewrite String.eqb_refl. Qed.

(** Creating a wallet and asking for its address: when no wallet file
    exists, the directory and the file can be written, and the key library
    reads back the key it serialized, the create action answers with the
    address of the generated key, leaves one more key generated and the file
    written, and the address action then answers with the same address. *)
Theorem create_then_address
  (pf : Platform) (config : PluginConfig) (w : World) :
  lookup_file (files w) (walletPath config) = None ->
  fs_mkdir_error pf (walletPath config) = None ->
  fs_write_error pf (walletPath config) = None ->
  Keypair_fromJson pf (wallet_json pf (Keypair_generate pf (generated w)))
  = Normal (Keypair_generate pf (generated w)) ->
  exists w',
    solana_wallet pf config ActionCreate w
    = (Normal (with_note "Please fund this wallet with SOL to start trading"
                 (with_address (publicKey (Keypair_generate pf (generated w)))
                    (with_message "Wallet created successfully"
                       (wallet_reply true)))), w') /\
    generated w' = S (generated w) /\
    calls w' = calls w /\
    solana_wallet pf config ActionAddress w'
    = (Normal (with_address (publicKey (Keypair_generate pf (generated w)))
                 (wallet_reply true)), w').
Proof.
  intros Hfile Hmkdir Hwrite Hread.
  eexists. split; [|split; [|split]].
  - unfold solana_wallet, io_bind. rewrite walletExists_run, Hfile.
    unfold createWallet, io_bind, generate_keypair, io_check, fs_writeFile.
    rewrite Hmkdir. simpl. rewrite Hwrite. reflexivity.
  - reflexivity.
  - reflexivity.
  - unfold solana_wallet, io_bind.
    rewrite walletExists_run. cbn [files].
    rewrite lookup_file_written. cbv beta iota delta [negb].
    rewrite getAddress_run. cbn [files].
    rewrite lookup_file_written, Hread. reflexivity.
Qed.

Lemma create_then_address_witness :
  exists w',
    solana_wallet sample_platform sample_config ActionCreate empty_world
    = (Normal (with_note "Please fund this wallet with SOL to start trading"
                 (with_address
                    (publicKey (Keypair_generate sample_platform
                                  (generated empty_world)))
                    (with_message "Wallet created successfully"
                       (wallet_reply true)))), w') /\
    generated w' = S (generated empty_world) /\
    calls w' = calls empty_world /\
    solana_wallet sample_platform sample_config ActionAddress w'
    = (Normal (with_address
                 (publicKey (Keypair_generate sample_platform
                               (generated empty_world)))
                 (wallet_reply true)), w').
Proof.
  apply (create_then_address sample_platform sample_config empty_world);
    reflexivity.
Defined.

(** ** Swaps *)

(** Without a wallet file the swap tool answers with a failure and calls
    nothing. *)
Theorem solana_swap_without_wallet
  (pf : Platform) (config : PluginConfig) (inputToken outputToken : string)
  (amountUsd : Q) (w : World) :
  lookup_file (files w) (walletPath config) = None ->
  solana_swap pf config inputToken outputToken amountUsd w
  = (Normal (SwapFailed "Wallet not found. Create wallet first."), w).
Proof.
  intro Hfile. unfold solana_swap, io_bind.
  now rewrite walletExists_run, Hfile.
Qed.

Lemma solana_swap_without_wallet_witness :
  solana_swap sample_platform sample_config "usdc" "sol" 10 empty_world
  = (Normal (SwapFailed "Wallet not found. Create wallet first."), empty_world).
Proof.
  apply (solana_swap_without_wallet sample_platform sample_config "usdc" "sol"
           10 empty_world).
  reflexivity.
Defined.

(** The swap tool never throws: whatever the wallet file, the order
    endpoint, the signing or the execute endpoint do, it returns a reply. *)
Theorem solana_swap_never_throws
  (pf : Platform) (config : PluginConfig) (inputToken outputToken : string)
  (amountUsd : Q) (w : World) :
  exists reply w',
    solana_swap pf config inputToken outputToken amountUsd w
    = (Normal reply, w').
Proof.
  unfold solana_swap, io_bind. rewrite walletExists_run.
  destruct (lookup_file (files w) (walletPath config)) as [text|];
    cbv beta iota delta [negb]; [|unfold io_ret; eauto].
  unfold io_try_catch, io_ret.
  match goal with
  | |- context [executeSwap ?pf ?a ?b ?c ?d ?e ?f ?w] =>
      destruct (executeSwap pf a b c d e f w) as [[result|e0] w']
  end; eauto.
Qed.

Lemma length_snoc {A} (l : list A) (x : A) :
  List.length (l ++ [x]) = S (List.length l).
Proof. rewrite length_app. simpl. lia. Qed.



(** A swap that goes through asks the order endpoint twice with the same
    URL: the amounts and the quote it reports are those of the first
    answer, the transaction it signs and the request id it posts are those
    of the second; the signature is the one of the execute answer. *)
Theorem executeSwap_reports_first_quote
  (pf : Platform) (rpcUrl walletPath inputMint outputMint amount : string)
  (label : option string) (w : World)
  (text : string) (wallet : Keypair) (first second : OrderData)
  (signed : string) (executed : ExecuteResult) :
  new_Connection_error pf rpcUrl = None ->
  lookup_file (files w) walletPath = Some text ->
  Keypair_fromJson pf text = Normal wallet ->
  jupiter_order pf (List.length (calls w))
                (order_url inputMint outputMint amount (publicKey wallet))
  = Normal first ->
  order_failed first = false ->
  jupiter_order pf (S (List.length (calls w)))
                (order_url inputMint outputMint amount (publicKey wallet))
  = Normal second ->
  order_failed second = false ->
  sign_transaction pf wallet (order_transaction second) = Normal signed ->
  jupiter_execute pf (S (S (List.length (calls w)))) signed
                  (order_requestId second) = Normal executed ->
  Js.or_str (execute_error executed) EmptyString = EmptyString ->
  exists result,
    executeSwap pf rpcUrl walletPath inputMint outputMint amount label w
    = (Normal result,
       {| files := files w; generated := generated w;
          calls :=
            calls w
            ++ [HttpGet (order_url inputMint outputMint amount
                                   (publicKey wallet));
                HttpGet (order_url inputMint outputMint amount
                                   (publicKey wallet));
                HttpPost execute_url signed (order_requestId second)] |}) /\
    signature result = execute_signature executed /\
    inAmount (quote result) = order_inAmount first /\
    outAmount (quote result) = order_outAmount first /\
    inputAmount result = parseFloat pf (order_inAmount first) /\
    outputAmount result = parseFloat pf (order_outAmount first) /\
    inputSymbol result = resolveTokenSymbol inputMint /\
    outputSymbol result = resolveTokenSymbol outputMint.
Proof.
  intros Hconn Hfile Hkey Hfirst Hok1 Hsecond Hok2 Hsign Hexec Hdone.
  eexists. split.
  - unfold executeSwap, io_bind, io_check. rewrite Hconn. unfold io_ret at 1.
    rewrite loadWallet_run, Hfile, Hkey.
    unfold getQuote, io_bind, io_call. rewrite Hfirst, Hok1.
    unfold io_ret at 1. cbn [calls].
    rewrite length_snoc, Hsecond, Hok2.
    unfold io_lift. rewrite Hsign. cbn [calls].
    rewrite !length_snoc, Hexec, Hdone.
    unfold io_ret. rewrite <- !app_assoc. reflexivity.
  - repeat split.
Qed.

Lemma executeSwap_reports_first_quote_witness :
  exists result,
    executeSwap sample_platform (rpcUrl sample_config)
                (walletPath sample_config) COMMON_MINTS_USDC COMMON_MINTS_SOL
                "10000000" None world_with_wallet
    = (Normal result,
       {| files := files world_with_wallet;
          generated := generated world_with_wallet;
          calls :=
            calls world_with_wallet
            ++ [HttpGet (order_url COMMON_MINTS_USDC COMMON_MINTS_SOL
                                   "10000000"
                                   (publicKey {| publicKey := "key*";
                                                 secretKey := [1%nat] |}));
                HttpGet (order_url COMMON_MINTS_USDC COMMON_MINTS_SOL
                                   "10000000"
                                   (publicKey {| publicKey := "key*";
                                                 secretKey := [1%nat] |}));
                HttpPost execute_url "signed:dHg="
                         (order_requestId sample_order)] |}) /\
    signature result
    = execute_signature {| execute_error := None;
                           execute_signature := Some "sig"%string |} /\
    inAmount (quote result) = order_inAmount sample_order /\
    outAmount (quote result) = order_outAmount sample_order /\
    inputAmount result = parseFloat sample_platform (order_inAmount sample_order) /\
    outputAmount result
    = parseFloat sample_platform (order_outAmount sample_order) /\
    inputSymbol result = resolveTokenSymbol COMMON_MINTS_USDC /\
    outputSymbol result = resolveTokenSymbol COMMON_MINTS_SOL.
Proof.
  apply (executeSwap_reports_first_quote sample_platform
           (rpcUrl sample_config) (walletPath sample_config)
           COMMON_MINTS_USDC COMMON_MINTS_SOL "10000000" None
           world_with_wallet "key*"
           {| publicKey := "key*"; secretKey := [1%nat] |}
           sample_order sample_order "signed:dHg="
           {| execute_error := None; execute_signature := Some "sig"%string |});
    reflexivity.
Defined.

(** The posts among the calls [l ++ new] that are not among [l] are among
    [new]. *)
Lemma new_call_in_tail (l new : list Call) (c : Call) :
  In c (l ++ new) -> ~ In c l -> In c new.
Proof.
  intros Hin Hnot. apply in_app_or in Hin. now destruct Hin.
Qed.

(** [executeSwap] posts to the execute endpoint only, and only after the
    wallet was loaded and the order endpoint answered twice without an
    error; what it posts is the transaction of the second answer, signed
    with the wallet's key, with the request id of the second answer. *)
Theorem executeSwap_posts_only_signed_order
  (pf : Platform) (rpcUrl walletPath inputMint outputMint amount : string)
  (label : option string) (w : World)
  (url signed : string) (requestId : option string) :
  In (HttpPost url signed requestId)
     (calls (snd (executeSwap pf rpcUrl walletPath inputMint outputMint
                              amount label w))) ->
  ~ In (HttpPost url signed requestId) (calls w) ->
  exists wallet first second,
    fst (loadWallet pf walletPath w) = Normal wallet /\
    jupiter_order pf (List.length (calls w))
                  (order_url inputMint outputMint amount (publicKey wallet))
    = Normal first /\
    order_failed first = false /\
    jupiter_order pf (S (List.length (calls w)))
                  (order_url inputMint outputMint amount (publicKey wallet))
    = Normal second /\
    order_failed second = false /\
    sign_transaction pf wallet (order_transaction second) = Normal signed /\
    requestId = order_requestId second /\
    url = execute_url.
Proof.
  intros Hin Hnew.
  unfold executeSwap, io_bind, io_check in Hin.
  destruct (new_Connection_error pf rpcUrl) as [e|];
    [simpl in Hin; contradiction|].
  unfold io_ret at 1 in Hin.
  destruct (loadWallet pf walletPath w) as [[wallet|e] w1] eqn:Hload.
  2:{ rewrite loadWallet_run in Hload. injection Hload as _ <-.
      simpl in Hin. contradiction. }
  assert (w1 = w) as -> by (rewrite loadWallet_run in Hload; now injection Hload).
  unfold getQuote, io_bind, io_call in Hin.
  destruct (jupiter_order pf (List.length (calls w)) _) as [first|e] eqn:Hfirst.
  2:{ simpl in Hin. apply new_call_in_tail in Hin; [|assumption].
      simpl in Hin. intuition discriminate. }
  destruct (order_failed first) eqn:Hok1.
  { simpl in Hin. apply new_call_in_tail in Hin; [|assumption].
    simpl in Hin. intuition discriminate. }
  unfold io_ret at 1 in Hin. cbn [calls] in Hin.
  rewrite length_snoc in Hin.
  destruct (jupiter_order pf (S (List.length (calls w))) _)
    as [second|e] eqn:Hsecond.
  2:{ simpl in Hin. rewrite <- app_assoc in Hin.
      apply new_call_in_tail in Hin; [|assumption].
      simpl in Hin. intuition discriminate. }
  destruct (order_failed second) eqn:Hok2.
  { simpl in Hin. rewrite <- app_assoc in Hin.
    apply new_call_in_tail in Hin; [|assumption].
    simpl in Hin. intuition discriminate. }
  unfold io_lift in Hin.
  destruct (sign_transaction pf wallet (order_transaction second))
    as [signed'|e] eqn:Hsign.
  2:{ simpl in Hin. rewrite <- app_assoc in Hin.
      apply new_call_in_tail in Hin; [|assumption].
      simpl in Hin. intuition discriminate. }
  assert (Hpost : In (HttpPost url signed requestId)
                     [HttpGet (order_url inputMint outputMint amount
                                         (publicKey wallet));
                      HttpGet (order_url inputMint outputMint amount
                                         (publicKey wallet));
                      HttpPost execute_url signed' (order_requestId second)]).
  { cbn [calls] in Hin.
    destruct (jupiter_execute pf _ signed' (order_requestId second))
      as [executed|e]; [|].
    - destruct (Js.or_str (execute_error executed) EmptyString);
        simpl in Hin; rewrite <- !app_assoc in Hin;
        now apply new_call_in_tail in Hin.
    - simpl in Hin. rewrite <- !app_assoc in Hin.
      now apply new_call_in_tail in Hin. }
  simpl in Hpost.
  destruct Hpost as [H|[H|[H|[]]]]; try discriminate.
  injection H as <- <- <-.
  exists wallet, first, second. repeat split; assumption.
Qed.

Lemma executeSwap_posts_only_signed_order_witness :
  exists wallet first second,
    fst (loadWallet sample_platform (walletPath sample_config) world_with_wallet)
    = Normal wallet /\
    jupiter_order sample_platform (List.length (calls world_with_wallet))
                  (order_url COMMON_MINTS_USDC COMMON_MINTS_SOL "10000000"
                             (publicKey wallet))
    = Normal first /\
    order_failed first = false /\
    jupiter_order sample_platform (S (List.length (calls world_with_wallet)))
                  (order_url COMMON_MINTS_USDC COMMON_MINTS_SOL "10000000"
                             (publicKey wallet))
    = Normal second /\
    order_failed second = false /\
    sign_transaction sample_platform wallet (order_transaction second)
    = Normal "signed:dHg="%string /\
    Some "r1"%string = order_requestId second /\
    execute_url = execute_url.
Proof.
  apply (executeSwap_posts_only_signed_order sample_platform
           (rpcUrl sample_config) (walletPath sample_config)
           COMMON_MINTS_USDC COMMON_MINTS_SOL "10000000" None
           world_with_wallet execute_url "signed:dHg=" (Some "r1"%string)).
  - vm_compute. right. right. left. reflexivity.
  - simpl. intros [].
Defined.

(** ** Balances *)

Lemma push_token_balances_positive (accounts : list (option TokenAccount))
  (tokenBalances : list TokenBalance) :
  Forall (fun tb => (0 < token_balance tb)%Z) tokenBalances ->
  Forall (fun tb => (0 < token_balance tb)%Z)
         (snd (push_token_balances accounts tokenBalances)).
Proof.
  revert tokenBalances.
  induction accounts as [|[accountData|] rest IH]; intros tokenBalances H;
    simpl; try assumption.
  destruct (parsed_amount accountData) as [balance|]; [|now apply IH].
  destruct (0 <? balance)%Z eqn:E; [|now apply IH].
  apply IH, Forall_app. split; [assumption|].
  constructor; [|constructor]. simpl. now apply Z.ltb_lt.
Qed.

(** Whenever [getBalance] returns, the address it reports is the one it
    was asked about and every token balance it lists is positive. *)
Theorem getBalance_lists_positive_balances
  (pf : Platform) (rpcUrl publicKeyStr : string) (w w' : World)
  (info : WalletInfo) :
  getBalance pf rpcUrl publicKeyStr w = (Normal info, w') ->
  info_address info = publicKeyStr /\
  Forall (fun tb => (0 < token_balance tb)%Z) (tokenBalances info).
Proof.
  unfold getBalance, io_bind, io_check, io_call, io_try_catch.
  destruct (new_Connection_error pf rpcUrl); [discriminate|].
  unfold io_ret at 1.
  destruct (new_PublicKey_error pf publicKeyStr); [discriminate|].
  unfold io_ret at 1.
  destruct (rpc_getBalance pf _ rpcUrl publicKeyStr) as [lamports|e];
    [|discriminate].
  cbn [calls].
  destruct (rpc_getTokenAccounts pf _ rpcUrl publicKeyStr) as [accounts|e];
    unfold io_ret; intro H; injection H as <- _; simpl; split;
    try reflexivity; try constructor.
  apply push_token_balances_positive. constructor.
Qed.

Lemma getBalance_lists_positive_balances_witness :
  info_address
    {| info_address := "key*";
       solBalance := (inject_Z 1000000000 / LAMPORTS_PER_SOL)%Q;
       tokenBalances :=
         [{| token_mint := COMMON_MINTS_USDC; token_balance := 5000000;
             token_decimals := Some 6%Z; token_uiAmount := 5 |}] |}
  = "key*"%string /\
  Forall (fun tb => (0 < token_balance tb)%Z)
         (tokenBalances
            {| info_address := "key*";
               solBalance := (inject_Z 1000000000 / LAMPORTS_PER_SOL)%Q;
               tokenBalances :=
                 [{| token_mint := COMMON_MINTS_USDC; token_balance := 5000000;
                     token_decimals := Some 6%Z; token_uiAmount := 5 |}] |}).
Proof.
  apply (getBalance_lists_positive_balances sample_platform
           (rpcUrl sample_config) "key*" world_with_wallet
           {| files := files world_with_wallet;
              generated := generated world_with_wallet;
              calls := [RpcGetBalance (rpcUrl sample_config) "key*";
                        RpcGetTokenAccounts (rpcUrl sample_config) "key*"] |}).
  reflexivity.
Defined.


